(** * PokeBase: the view composition engine of [app.py]

    A shallow embedding of [compute_type_matchups], [describe_evo_step]
    and [get_pokemon_data] over a relational model of the SQLite
    reference dataset, followed by the properties of the composed view.

    Modelling conventions.
    - A table is the list of its rows in storage order; a row is a record
      whose fields are the columns [app.py] reads.  A column is an
      [option] where the code allows for NULL (a truthiness test, an
      [or] default, COALESCE, a [LEFT JOIN] on it, or an optional number
      handed to the view as it is); a column the code uses unguarded is
      taken NOT NULL.
    - A query is evaluated as nested loops in [FROM] order, written as a
      list comprehension: a bind per joined table with its [ON] condition
      as a [filter] ([outer] of it for a [LEFT JOIN]), [where_] for
      [WHERE], the stable sort [sort_by] for [ORDER BY], [take n] for
      [LIMIT n] and [fetchone] for the first row.  Where SQLite leaves the
      order of rows open (no [ORDER BY], or ties), the model fixes
      storage order.
    - Text is a [string] of bytes (UTF-8); SQLite's BINARY collation and
      Python's [str] comparison are both the lexicographic byte order
      [String.le].  Case mapping ([lower], [title], [capitalize]) is the
      ASCII one; bytes above 127 are left alone and count as uncased.
    - A Python [float] is an IEEE 754 binary64 number: [spec_float] with
      the arithmetic of [SpecFloat], in which the type multipliers are
      computed.  The stat percentage, which is truncated to an integer
      and clamped, is computed in exact rationals ([Qc]).  Integers are
      [Z].
    - A Python exception is the [Raise] branch of [result]. *)

From Stdlib Require Import ZArith QArith Qcanon String Ascii List DecimalString.
From Stdlib Require Import SpecFloat.
From stdpp Require Import base list strings sorting gmap.

#[local] Set Warnings "-clear-no-such-hyp".

Open Scope string_scope.
Open Scope list_scope.
Open Scope Z_scope.

(** ** Results of fallible code *)

Inductive exn := KeyError (key : Z).

Inductive result (A : Type) :=
| Ok (a : A)
| Raise (e : exn).
Arguments Ok {A} a.
Arguments Raise {A} e.

Definition rbind {A B} (m : result A) (k : A → result B) : result B :=
  match m with
  | Ok a => k a
  | Raise e => Raise e
  end.

Notation "x ←ʳ m ; k" := (rbind m (λ x, k))
  (at level 20, m at level 100, k at level 200, right associativity,
   format "x  ←ʳ  m ;  '/' k").

(** ** Python string operations (module [Py]) *)

Module Py.

Definition is_upper (c : ascii) : bool :=
  let n := nat_of_ascii c in (65 <=? n)%nat && (n <=? 90)%nat.

Definition is_lower (c : ascii) : bool :=
  let n := nat_of_ascii c in (97 <=? n)%nat && (n <=? 122)%nat.

(** [_PyUnicode_IsCased], restricted to ASCII. *)
Definition is_cased (c : ascii) : bool := is_upper c || is_lower c.

Definition to_lower (c : ascii) : ascii :=
  if is_upper c then ascii_of_nat (nat_of_ascii c + 32) else c.

Definition to_upper (c : ascii) : ascii :=
  if is_lower c then ascii_of_nat (nat_of_ascii c - 32) else c.

(** [str.lower()] *)
Fixpoint lower (s : string) : string :=
  match s with
  | EmptyString => EmptyString
  | String c s' => String (to_lower c) (lower s')
  end.

(** [str.title()]: a cased character is upper-cased when the character
    before it is uncased (or there is none) and lower-cased otherwise. *)
Fixpoint title_go (previous_is_cased : bool) (s : string) : string :=
  match s with
  | EmptyString => EmptyString
  | String c s' =>
      String (if previous_is_cased then to_lower c else to_upper c)
             (title_go (is_cased c) s')
  end.

Definition title (s : string) : string := title_go false s.

(** [str.capitalize()] *)
Definition capitalize (s : string) : string :=
  match s with
  | EmptyString => EmptyString
  | String c s' => String (to_upper c) (lower s')
  end.

(** [s.replace(old, new)] for one-character [old] and [new]. *)
Fixpoint replace_char (old new : ascii) (s : string) : string :=
  match s with
  | EmptyString => EmptyString
  | String c s' =>
      String (if Ascii.eqb c old then new else c) (replace_char old new s')
  end.

(** [str(n)] and the [{n}] of an f-string, for an [int]. *)
Definition str_of_int (n : Z) : string :=
  NilZero.string_of_int (Z.to_int n).

(** [sep.join(parts)] *)
Definition join (sep : string) (parts : list string) : string :=
  String.concat sep parts.

(** Truthiness of a value that is [None] or an [int]. *)
Definition truthy_int (o : option Z) : bool :=
  match o with
  | Some n => negb (n =? 0)
  | None => false
  end.

(** Truthiness of a value that is [None] or a [str]. *)
Definition truthy_str (o : option string) : bool :=
  match o with
  | Some s => negb (String.eqb s "")
  | None => false
  end.

(** [o or ""] for a value that is [None] or a [str]. *)
Definition or_empty (o : option string) : string := default "" o.

(** [bool(n)] for an [int]. *)
Definition bool_of_int (n : Z) : bool := negb (n =? 0).

Definition LF : ascii := ascii_of_nat 10.
Definition FF : ascii := ascii_of_nat 12.
Definition SP : ascii := " "%char.
Definition HYPHEN : ascii := "-"%char.

End Py.

(** ** Sorting *)

(** A stable insertion sort on a key: the model of [list.sort(key=...)],
    of [sorted] and of SQL's [ORDER BY].  [le] compares keys. *)
Section sort_by.
Context {A K : Type} (le : K → K → Prop) `{!RelDecision le} (key : A → K).

Fixpoint insert_by (x : A) (l : list A) : list A :=
  match l with
  | [] => [x]
  | y :: l' =>
      if decide (le (key x) (key y)) then x :: l else y :: insert_by x l'
  end.

Definition sort_by (l : list A) : list A := foldr insert_by [] l.

(** The order [sort_by] establishes between elements. *)
Definition key_rel : relation A := λ x y, le (key x) (key y).
End sort_by.

(** ** SQL combinators *)

(** A query is written as a list comprehension: one bind per table of
    the [FROM] clause, the [ON] condition as the [filter] of the joined
    table, and [outer] around the filter for a [LEFT JOIN]. *)
Definition outer {B} (matches : list B) : list (option B) :=
  match matches with
  | [] => [None]
  | _ => Some <$> matches
  end.

(** The [WHERE] clause of a comprehension. *)
Definition where_ {A} (P : Prop) `{!Decision P} (row : A) : list A :=
  if decide P then [row] else [].

(** [fetchone()] *)
Definition fetchone {A} (rows : list A) : option A := head rows.

(** A comparison [col = v] on a nullable column is written
    [col = Some v]: it never holds on NULL. *)

(** [COALESCE(a, b)] with a non-null last argument. *)
Definition coalesce {A} (o : option A) (d : A) : A := default d o.

(** ** The reference dataset *)

Definition LANG_EN : Z := 9.
Definition BW_VERSION_GROUP_ID : Z := 11.
Definition LEVELUP_METHOD_ID : Z := 1.

Record pokemon_row := {
  p_id : Z; p_identifier : string; p_species_id : Z; p_is_default : Z }.
Record pokemon_forms_row := { pf_id : Z; pf_pokemon_id : Z }.
Record pokemon_form_names_row := {
  pfn_pokemon_form_id : Z; pfn_local_language_id : Z;
  pfn_pokemon_name : option string }.
Record pokemon_species_row := {
  ps_id : Z; ps_identifier : string;
  ps_evolves_from_species_id : option Z;
  ps_evolution_chain_id : option Z;
  ps_growth_rate_id : option Z;
  ps_capture_rate : option Z;
  ps_base_happiness : option Z;
  ps_generation_id : option Z }.
Record pokemon_species_names_row := {
  psn_pokemon_species_id : Z; psn_local_language_id : Z; psn_name : string }.
Record pokemon_species_flavor_text_row := {
  psft_species_id : Z; psft_version_id : Z; psft_language_id : Z;
  psft_flavor_text : string }.

Record types_row := { ty_id : Z; ty_identifier : string }.
Record type_names_row := {
  tn_type_id : Z; tn_local_language_id : Z; tn_name : string }.
Record type_efficacy_row := {
  te_damage_type_id : Z; te_target_type_id : Z; te_damage_factor : Z }.
Record pokemon_types_row := { pt_pokemon_id : Z; pt_type_id : Z; pt_slot : Z }.

Record stats_row := { st_id : Z; st_identifier : string }.
Record stat_names_row := {
  sn_stat_id : Z; sn_local_language_id : Z; sn_name : string }.
Record pokemon_stats_row := {
  pst_pokemon_id : Z; pst_stat_id : Z; pst_base_stat : Z }.

Record abilities_row := { ab_id : Z; ab_identifier : string }.
Record ability_names_row := {
  an_ability_id : Z; an_local_language_id : Z; an_name : string }.
Record ability_flavor_text_row := {
  aft_ability_id : Z; aft_version_group_id : Z; aft_language_id : Z;
  aft_flavor_text : option string }.
Record pokemon_abilities_row := {
  pa_pokemon_id : Z; pa_ability_id : Z; pa_is_hidden : Z; pa_slot : Z }.

Record growth_rates_row := { gr_id : Z; gr_identifier : string }.
Record growth_rate_prose_row := {
  grp_growth_rate_id : Z; grp_local_language_id : Z;
  grp_name : option string }.
Record generations_row := { g_id : Z; g_main_region_id : option Z }.
Record generation_names_row := {
  gn_generation_id : Z; gn_local_language_id : Z; gn_name : string }.
Record regions_row := { r_id : Z }.
Record region_names_row := {
  rn_region_id : Z; rn_local_language_id : Z; rn_name : string }.

Record pokemon_evolution_row := {
  e_evolved_species_id : Z;
  e_evolution_trigger_id : option Z;
  e_trigger_item_id : option Z;
  e_minimum_level : option Z;
  e_held_item_id : option Z;
  e_known_move_id : option Z;
  e_minimum_happiness : option Z;
  e_time_of_day : option string }.
Record evolution_triggers_row := { et_id : Z; et_identifier : string }.
Record items_row := { it_id : Z }.
Record item_names_row := {
  itn_item_id : Z; itn_local_language_id : Z; itn_name : string }.

Record moves_row := {
  m_id : Z; m_identifier : string;
  m_type_id : option Z; m_damage_class_id : option Z; m_effect_id : option Z;
  m_power : option Z; m_accuracy : option Z; m_pp : option Z }.
Record move_names_row := {
  mn_move_id : Z; mn_local_language_id : Z; mn_name : option string }.
Record move_damage_classes_row := { mdc_id : Z; mdc_identifier : string }.
Record move_damage_class_prose_row := {
  mdcp_move_damage_class_id : Z; mdcp_local_language_id : Z;
  mdcp_name : string }.
Record move_effect_prose_row := {
  mep_move_effect_id : Z; mep_local_language_id : Z;
  mep_short_effect : option string }.
Record pokemon_moves_row := {
  pm_pokemon_id : Z; pm_version_group_id : Z; pm_move_id : Z;
  pm_pokemon_move_method_id : Z; pm_level : Z }.

Record pokemon_egg_groups_row := { peg_species_id : Z; peg_egg_group_id : Z }.
Record egg_group_prose_row := {
  egp_egg_group_id : Z; egp_local_language_id : Z; egp_name : string }.

Record encounters_row := {
  enc_version_id : Z; enc_location_area_id : Z; enc_pokemon_id : Z }.
Record location_areas_row := { la_id : Z; la_location_id : Z }.
Record locations_row := { l_id : Z }.
Record location_names_row := {
  ln_location_id : Z; ln_local_language_id : Z; ln_name : string }.
Record versions_row := { v_id : Z }.
Record version_names_row := {
  vn_version_id : Z; vn_local_language_id : Z; vn_name : string }.

(** The tables of [data/pokedex.sqlite] that [app.py] reads. *)
Record database := {
  pokemon : list pokemon_row;
  pokemon_forms : list pokemon_forms_row;
  pokemon_form_names : list pokemon_form_names_row;
  pokemon_species : list pokemon_species_row;
  pokemon_species_names : list pokemon_species_names_row;
  pokemon_species_flavor_text : list pokemon_species_flavor_text_row;
  types : list types_row;
  type_names : list type_names_row;
  type_efficacy : list type_efficacy_row;
  pokemon_types : list pokemon_types_row;
  stats : list stats_row;
  stat_names : list stat_names_row;
  pokemon_stats : list pokemon_stats_row;
  abilities : list abilities_row;
  ability_names : list ability_names_row;
  ability_flavor_text : list ability_flavor_text_row;
  pokemon_abilities : list pokemon_abilities_row;
  growth_rates : list growth_rates_row;
  growth_rate_prose : list growth_rate_prose_row;
  generations : list generations_row;
  generation_names : list generation_names_row;
  regions : list regions_row;
  region_names : list region_names_row;
  pokemon_evolution : list pokemon_evolution_row;
  evolution_triggers : list evolution_triggers_row;
  items : list items_row;
  item_names : list item_names_row;
  moves : list moves_row;
  move_names : list move_names_row;
  move_damage_classes : list move_damage_classes_row;
  move_damage_class_prose : list move_damage_class_prose_row;
  move_effect_prose : list move_effect_prose_row;
  pokemon_moves : list pokemon_moves_row;
  pokemon_egg_groups : list pokemon_egg_groups_row;
  egg_group_prose : list egg_group_prose_row;
  encounters : list encounters_row;
  location_areas : list location_areas_row;
  locations : list locations_row;
  location_names : list location_names_row;
  versions : list versions_row;
  version_names : list version_names_row }.

(** ** Python numbers *)

(** The integer nearest to [q], a tie going to the even one. *)
Definition round_half_even (q : Qc) : Z :=
  let n := Qnum q in
  let d := Z.pos (Qden q) in
  let fl := n / d in
  let r := n mod d in
  if decide (2 * r < d) then fl
  else if decide (d < 2 * r) then fl + 1
  else if Z.even fl then fl else fl + 1.

(** [int(x)] of a float: truncation toward zero. *)
Definition py_int (x : Qc) : Z := Z.quot (Qnum x) (Z.pos (Qden x)).

(** *** Binary floating point

    A [float] is an IEEE 754 binary64 number: 53 bits of precision,
    round to nearest with ties to even, signed zeros, infinities and
    NaN. *)
Definition prec : Z := 53.
Definition emax : Z := 1024.
Definition float : Type := spec_float.

(** [float(n)], the conversion an integer operand of [/] or [*] with a
    float undergoes: the double nearest to [n].  (An integer of SQLite
    has 64 bits, well inside the range of doubles.) *)
Definition float_of_int (n : Z) : float := binary_normalize prec emax n 0 false.

(** [x * y] and [x / y] (the divisors of [app.py] are not zero). *)
Definition float_mul (x y : float) : float := SFmul prec emax x y.
Definition float_div (x y : float) : float := SFdiv prec emax x y.

(** [x < y], [x == y] and [x <= y]; each is false when an operand is
    NaN. *)
Definition float_lt (x y : float) : Prop := SFltb x y = true.
Definition float_eq (x y : float) : Prop := SFeqb x y = true.
Definition float_le (x y : float) : Prop := SFleb x y = true.

(** The test [list.sort] makes on two keys: it only asks whether one is
    [<] the other, and leaves [x] before [y] unless [y < x]. *)
Definition float_ngt (x y : float) : Prop := SFltb y x = false.

#[global] Instance float_lt_dec : RelDecision float_lt :=
  λ x y, decide (SFltb x y = true).
#[global] Instance float_eq_dec : RelDecision float_eq :=
  λ x y, decide (SFeqb x y = true).
#[global] Instance float_le_dec : RelDecision float_le :=
  λ x y, decide (SFleb x y = true).
#[global] Instance float_ngt_dec : RelDecision float_ngt :=
  λ x y, decide (SFltb y x = false).

(** The exact value of a finite double (0 for the others). *)
Definition float_value (x : float) : Qc :=
  match x with
  | S754_finite s m e => Q2Qc (inject_Z (cond_Zopp s (Z.pos m)) * 2 ^ e)%Q
  | _ => 0%Qc
  end.

(** The double a decimal numeral is read as: the one nearest to
    [digits * 10^-ndigits], with the sign given. *)
Definition float_of_decimal (negative : bool) (digits : Z) (ndigits : nat)
  : float :=
  match digits with
  | Z.pos k =>
      SFdiv prec emax (S754_finite negative k 0)
                      (S754_finite false (Z.to_pos (10 ^ Z.of_nat ndigits)) 0)
  | _ => S754_zero negative
  end.

(** [round(x, ndigits)] for [ndigits >= 0]: the exact value of [x] is
    rounded to [ndigits] decimal places, a tie going to the even digit,
    and the numeral obtained is read back as a double.  Zeros,
    infinities and NaN round to themselves. *)
Definition py_round (x : float) (ndigits : nat) : float :=
  match x with
  | S754_finite s m e =>
      let scale := 10 ^ Z.of_nat ndigits in
      float_of_decimal s
        (round_half_even (float_value (SFabs x) * Qc_of_Z scale)) ndigits
  | _ => x
  end.

(** The literals [0], [1.0], [100.0], [1.01] and [0.99]. *)
Definition F_0 : float := S754_zero false.
Definition F_1_0 : float := Eval vm_compute in float_of_int 1.
Definition F_100 : float := Eval vm_compute in float_of_int 100.
Definition F_1_01 : float := Eval vm_compute in float_of_decimal false 101 2.
Definition F_0_99 : float := Eval vm_compute in float_of_decimal false 99 2.

(** ** compute_type_matchups *)

(** A row of [SELECT t.id, t.identifier, tn.name]. *)
Record type_row := { tr_id : Z; tr_identifier : string; tr_name : string }.

(** An entry of the [weak], [resist] and [immune] lists.  The [label]
    key, a rendering of [multiplier], is not modelled. *)
Record matchup_entry := {
  me_identifier : string; me_name : string; me_multiplier : float }.

Record type_matchups := {
  weak : list matchup_entry;
  resist : list matchup_entry;
  immune : list matchup_entry }.

Definition attack_types_query (db : database) : list type_row :=
  sort_by Z.le tr_id
    (t ← types db;
     tn ← filter (λ tn, tn_type_id tn = ty_id t
                        ∧ tn_local_language_id tn = LANG_EN) (type_names db);
     [ {| tr_id := ty_id t; tr_identifier := ty_identifier t;
          tr_name := tn_name tn |} ]).

Definition efficacy_query (db : database) (type_ids : list Z)
  : list type_efficacy_row :=
  filter (λ r, te_target_type_id r ∈ type_ids) (type_efficacy db).

(** [{row["id"]: 1.0 for row in attack_types}] *)
Definition initial_factors (attack_types : list type_row) : gmap Z float :=
  foldl (λ factors row, <[tr_id row := F_1_0]> factors) ∅ attack_types.

(** [row["damage_factor"] / 100.0] *)
Definition factor_of (row : type_efficacy_row) : float :=
  float_div (float_of_int (te_damage_factor row)) F_100.

(** [factors[atk] *= row["damage_factor"] / 100.0], which raises
    [KeyError] when [atk] is not a key of [factors]. *)
Definition scale_factor (factors : gmap Z float) (row : type_efficacy_row)
  : result (gmap Z float) :=
  let atk := te_damage_type_id row in
  match factors !! atk with
  | Some f => Ok (<[atk := float_mul f (factor_of row)]> factors)
  | None => Raise (KeyError atk)
  end.

Fixpoint scale_factors (factors : gmap Z float)
    (rows : list type_efficacy_row) : result (gmap Z float) :=
  match rows with
  | [] => Ok factors
  | row :: rows' =>
      factors' ←ʳ scale_factor factors row; scale_factors factors' rows'
  end.

(** [round(factors.get(atk_id, 1.0), 2)] *)
Definition mult_of (factors : gmap Z float) (row : type_row) : float :=
  py_round (default F_1_0 (factors !! tr_id row)) 2.

Definition entry_of (factors : gmap Z float) (row : type_row)
  : matchup_entry :=
  {| me_identifier := tr_identifier row; me_name := tr_name row;
     me_multiplier := mult_of factors row |}.

(** One turn of the loop [for row in attack_types]. *)
Definition classify (factors : gmap Z float) (acc : type_matchups)
    (row : type_row) : type_matchups :=
  let mult := mult_of factors row in
  let entry := entry_of factors row in
  if decide (float_eq mult F_0) then
    {| weak := weak acc; resist := resist acc;
       immune := immune acc ++ [entry] |}
  else if decide (float_lt F_1_01 mult) then
    {| weak := weak acc ++ [entry]; resist := resist acc;
       immune := immune acc |}
  else if decide (float_lt mult F_0_99) then
    {| weak := weak acc; resist := resist acc ++ [entry];
       immune := immune acc |}
  else acc.

Definition no_matchups : type_matchups :=
  {| weak := []; resist := []; immune := [] |}.

Definition compute_type_matchups (db : database) (types_rows : list type_row)
  : result type_matchups :=
  match types_rows with
  | [] => Ok no_matchups
  | _ =>
      let type_ids := tr_id <$> types_rows in
      let attack_types := attack_types_query db in
      factors ←ʳ scale_factors (initial_factors attack_types)
                               (efficacy_query db type_ids);
      let lists := foldl (classify factors) no_matchups attack_types in
      Ok {| weak := sort_by (flip float_ngt) me_multiplier (weak lists);
            resist := sort_by float_ngt me_multiplier (resist lists);
            immune := immune lists |}
  end.

(** ** describe_evo_step *)

(** A row of the evolution query of [get_pokemon_data]. *)
Record evo_row := {
  ev_from_species_id : option Z;
  ev_from_identifier : option string;
  ev_from_name : option string;
  ev_to_species_id : Z;
  ev_to_identifier : string;
  ev_to_name : option string;
  ev_trigger_identifier : option string;
  ev_minimum_level : option Z;
  ev_minimum_happiness : option Z;
  ev_time_of_day : option string;
  ev_item_name : option string;
  ev_held_item_name : option string;
  ev_known_move_name : option string }.

(** [if x: parts.append(clause)] *)
Definition append_if (cond : bool) (clause : string) (parts : list string)
  : list string :=
  if cond then parts ++ [clause] else parts.

Definition describe_evo_step (row : evo_row) : string :=
  let parts := [] in
  let trigger := Py.or_empty (ev_trigger_identifier row) in
  let lvl := ev_minimum_level row in
  let item := ev_item_name row in
  let held_item := ev_held_item_name row in
  let move_name := ev_known_move_name row in
  let happiness := ev_minimum_happiness row in
  let time_of_day := Py.or_empty (ev_time_of_day row) in
  let parts :=
    append_if (Py.truthy_int lvl)
              ("Level " +:+ Py.str_of_int (default 0 lvl)) parts in
  let parts :=
    append_if (Py.truthy_str item) ("Use " +:+ Py.or_empty item) parts in
  let parts :=
    append_if (Py.truthy_str held_item)
              ("Holding " +:+ Py.or_empty held_item) parts in
  let parts := append_if (Py.truthy_int happiness) "High friendship" parts in
  let parts :=
    append_if (Py.truthy_str move_name)
              ("Knows " +:+ Py.or_empty move_name) parts in
  let parts :=
    append_if (negb (String.eqb time_of_day ""))
              (Py.capitalize time_of_day) parts in
  let parts :=
    match parts with
    | [] =>
        append_if (negb (String.eqb trigger ""))
                  (Py.title (Py.replace_char Py.HYPHEN Py.SP trigger)) parts
    | _ => parts
    end in
  let joined := Py.join ", " parts in
  if String.eqb joined "" then "" else joined.

(** ** The composed view *)

Record stat_entry := {
  se_id : Z; se_identifier : string; se_name : string;
  se_value : Z; se_min : Z; se_max : Z; se_percent : Z }.

Record type_entry := { tye_identifier : string; tye_name : string }.

Record ability_entry := {
  ae_identifier : string; ae_name : string; ae_is_hidden : bool;
  ae_flavor_text : string }.

Record move_entry := {
  mv_name : string; mv_level : Z;
  mv_type_identifier : option string; mv_type_name : option string;
  mv_category : option string;
  mv_power : option Z; mv_accuracy : option Z; mv_pp : option Z;
  mv_effect : string }.

Record species_ref (N : Type) := {
  sp_species_id : Z; sp_identifier : N; sp_name : option string }.
Arguments sp_species_id {N} _.
Arguments sp_identifier {N} _.
Arguments sp_name {N} _.

Record evolution_edge := {
  ee_from : option (species_ref (option string));
  ee_to : species_ref string;
  ee_condition : string }.

Record form_entry := {
  fe_identifier : string; fe_name : string; fe_is_default : bool }.

Record nav_entry := { nav_dex : Z; nav_identifier : string; nav_name : string }.

Record encounter_entry := { en_version : string; en_locations : list string }.

Record view := {
  vm_identifier : string;
  vm_display_name : string;
  vm_dex : Z;
  vm_stats : list stat_entry;
  vm_total : Z;
  vm_types : list type_entry;
  vm_abilities : list ability_entry;
  vm_sprite_url : string;
  vm_moves : list move_entry;
  vm_evolutions : list evolution_edge;
  vm_egg_groups : list string;
  vm_growth_rate : option string;
  vm_capture_rate : option Z;
  vm_base_happiness : option Z;
  vm_flavor_text : string;
  vm_generation : option string;
  vm_region : option string;
  vm_type_matchups : type_matchups;
  vm_forms : list form_entry;
  vm_nav_prev : option nav_entry;
  vm_nav_next : option nav_entry;
  vm_encounters : list encounter_entry }.

(** ** get_pokemon_basic *)

Record basic_row := {
  b_id : Z; b_identifier : string; b_species_id : Z;
  b_display_name : string }.

Definition get_pokemon_basic (db : database) (identifier : string)
  : option basic_row :=
  fetchone (take 1
    (p ← pokemon db;
     pf ← outer (filter (λ pf, pf_pokemon_id pf = p_id p) (pokemon_forms db));
     pfn ← outer (filter (λ pfn, Some (pfn_pokemon_form_id pfn) = pf_id <$> pf
                                 ∧ pfn_local_language_id pfn = LANG_EN)
                         (pokemon_form_names db));
     psn ← filter (λ psn, psn_pokemon_species_id psn = p_species_id p
                          ∧ psn_local_language_id psn = LANG_EN)
                  (pokemon_species_names db);
     where_ (p_identifier p = Py.lower identifier)
       {| b_id := p_id p; b_identifier := p_identifier p;
          b_species_id := p_species_id p;
          b_display_name :=
            coalesce (pfn ≫= pfn_pokemon_name) (psn_name psn) |})).

(** ** The queries and loops of get_pokemon_data *)

(** *** stats *)

Record stat_row := {
  sr_stat_id : Z; sr_stat_identifier : string; sr_stat_name : string;
  sr_base_stat : Z }.

Definition stats_query (db : database) (pokemon_id : Z) : list stat_row :=
  sort_by Z.le sr_stat_id
    (ps ← pokemon_stats db;
     s ← filter (λ s, st_id s = pst_stat_id ps) (stats db);
     sn ← filter (λ sn, sn_stat_id sn = st_id s
                        ∧ sn_local_language_id sn = LANG_EN) (stat_names db);
     where_ (pst_pokemon_id ps = pokemon_id)
       {| sr_stat_id := pst_stat_id ps; sr_stat_identifier := st_identifier s;
          sr_stat_name := sn_name sn; sr_base_stat := pst_base_stat ps |}).

(** [SELECT stat_id, MIN(base_stat), MAX(base_stat) ... GROUP BY stat_id]
    read into the dict [mins_maxs]. *)
Definition mins_maxs_query (db : database) : gmap Z (Z * Z) :=
  foldl (λ groups r,
           let b := pst_base_stat r in
           <[pst_stat_id r :=
               match groups !! pst_stat_id r with
               | Some (lo, hi) => (Z.min lo b, Z.max hi b)
               | None => (b, b)
               end]> groups)
        ∅ (pokemon_stats db).

Definition MAX_STAT_VIS : Z := 180.

(** [pct = int(base_val / MAX_STAT_VIS * 100) if MAX_STAT_VIS else 0]
    followed by [pct = max(5, min(pct, 100))]. *)
Definition stat_percent (base_val : Z) : Z :=
  let pct :=
    if MAX_STAT_VIS =? 0 then 0
    else py_int (Qc_of_Z base_val / Qc_of_Z MAX_STAT_VIS * Qc_of_Z 100)%Qc in
  Z.max 5 (Z.min pct 100).

Definition stat_entry_of (mins_maxs : gmap Z (Z * Z)) (row : stat_row)
  : stat_entry :=
  let '(lo, hi) := default (0, 255) (mins_maxs !! sr_stat_id row) in
  let base_val := sr_base_stat row in
  {| se_id := sr_stat_id row; se_identifier := sr_stat_identifier row;
     se_name := sr_stat_name row; se_value := base_val;
     se_min := lo; se_max := hi; se_percent := stat_percent base_val |}.

(** The loop [for row in stat_rows], threading [(stats, total)]. *)
Definition stats_loop (mins_maxs : gmap Z (Z * Z)) (stat_rows : list stat_row)
  : list stat_entry * Z :=
  foldl (λ '(stats, total) row,
           (stats ++ [stat_entry_of mins_maxs row],
            total + sr_base_stat row))
        ([], 0) stat_rows.

(** *** types *)

Definition types_query (db : database) (pokemon_id : Z) : list type_row :=
  snd <$> sort_by Z.le fst
    (pt ← pokemon_types db;
     ty ← filter (λ ty, ty_id ty = pt_type_id pt) (types db);
     tn ← filter (λ tn, tn_type_id tn = ty_id ty
                        ∧ tn_local_language_id tn = LANG_EN) (type_names db);
     where_ (pt_pokemon_id pt = pokemon_id)
       (pt_slot pt,
        {| tr_id := ty_id ty; tr_identifier := ty_identifier ty;
           tr_name := tn_name tn |})).

(** *** abilities *)

Record ability_row := {
  ar_identifier : string; ar_name : string; ar_is_hidden : Z;
  ar_flavor_text : option string }.

(** The scalar subquery on [ability_flavor_text]. *)
Definition ability_flavor_subquery (db : database) (ability_id : Z)
  : option string :=
  fetchone (take 1
    (sort_by (flip Z.le) aft_version_group_id
       (filter (λ aft, aft_ability_id aft = ability_id
                       ∧ aft_language_id aft = LANG_EN)
               (ability_flavor_text db))))
  ≫= aft_flavor_text.

Definition abilities_query (db : database) (pokemon_id : Z)
  : list ability_row :=
  snd <$> sort_by Z.le fst
    (pa ← pokemon_abilities db;
     a ← filter (λ a, ab_id a = pa_ability_id pa) (abilities db);
     an ← filter (λ an, an_ability_id an = ab_id a
                        ∧ an_local_language_id an = LANG_EN)
                 (ability_names db);
     where_ (pa_pokemon_id pa = pokemon_id)
       (pa_slot pa,
        {| ar_identifier := ab_identifier a; ar_name := an_name an;
           ar_is_hidden := pa_is_hidden pa;
           ar_flavor_text := ability_flavor_subquery db (ab_id a) |})).

(** [s.replace("\n", " ").replace("\f", " ")] *)
Definition one_line (s : string) : string :=
  Py.replace_char Py.FF Py.SP (Py.replace_char Py.LF Py.SP s).

Definition ability_entry_of (r : ability_row) : ability_entry :=
  let text := one_line (Py.or_empty (ar_flavor_text r)) in
  {| ae_identifier := ar_identifier r; ae_name := ar_name r;
     ae_is_hidden := Py.bool_of_int (ar_is_hidden r);
     ae_flavor_text := text |}.

(** *** species info, generation, region *)

Definition species_query (db : database) (species_id : Z)
  : option pokemon_species_row :=
  fetchone (filter (λ s, ps_id s = species_id) (pokemon_species db)).

Definition growth_rate_query (db : database) (growth_rate_id : Z)
  : option string :=
  fetchone (take 1
    (gr ← growth_rates db;
     grp ← outer (filter (λ grp, grp_growth_rate_id grp = gr_id gr
                                 ∧ grp_local_language_id grp = LANG_EN)
                         (growth_rate_prose db));
     where_ (gr_id gr = growth_rate_id)
       (coalesce (grp ≫= grp_name) (gr_identifier gr)))).

(** A row of [SELECT gn.name AS gen_name, rn.name AS region_name]. *)
Definition generation_query (db : database) (generation_id : Z)
  : option (option string * option string) :=
  fetchone (take 1
    (g ← generations db;
     gn ← outer (filter (λ gn, gn_generation_id gn = g_id g
                               ∧ gn_local_language_id gn = LANG_EN)
                        (generation_names db));
     r ← outer (filter (λ r, Some (r_id r) = g_main_region_id g) (regions db));
     rn ← outer (filter (λ rn, Some (rn_region_id rn) = r_id <$> r
                               ∧ rn_local_language_id rn = LANG_EN)
                        (region_names db));
     where_ (g_id g = generation_id)
       ((gn_name <$> gn, rn_name <$> rn) : option string * option string))).

(** *** evolution chain *)

Definition evolution_query (db : database) (evo_chain_id : Z) : list evo_row :=
  sort_by Z.le ev_to_species_id
    (e ← pokemon_evolution db;
     to_ps ← filter (λ s, ps_id s = e_evolved_species_id e)
                    (pokemon_species db);
     from_ps ← outer (filter (λ s, Some (ps_id s)
                                   = ps_evolves_from_species_id to_ps)
                             (pokemon_species db));
     to_psn ← outer (filter (λ n, psn_pokemon_species_id n = ps_id to_ps
                                  ∧ psn_local_language_id n = LANG_EN)
                            (pokemon_species_names db));
     from_psn ← outer (filter (λ n, Some (psn_pokemon_species_id n)
                                    = ps_id <$> from_ps
                                    ∧ psn_local_language_id n = LANG_EN)
                              (pokemon_species_names db));
     et ← outer (filter (λ et, Some (et_id et) = e_evolution_trigger_id e)
                        (evolution_triggers db));
     it ← outer (filter (λ it, Some (it_id it) = e_trigger_item_id e)
                        (items db));
     itn ← outer (filter (λ n, Some (itn_item_id n) = it_id <$> it
                               ∧ itn_local_language_id n = LANG_EN)
                         (item_names db));
     hit ← outer (filter (λ it, Some (it_id it) = e_held_item_id e)
                         (items db));
     hitn ← outer (filter (λ n, Some (itn_item_id n) = it_id <$> hit
                                ∧ itn_local_language_id n = LANG_EN)
                          (item_names db));
     km ← outer (filter (λ m, Some (m_id m) = e_known_move_id e) (moves db));
     kmn ← outer (filter (λ n, Some (mn_move_id n) = m_id <$> km
                               ∧ mn_local_language_id n = LANG_EN)
                         (move_names db));
     where_ (ps_evolution_chain_id to_ps = Some evo_chain_id)
       {| ev_from_species_id := ps_id <$> from_ps;
          ev_from_identifier := ps_identifier <$> from_ps;
          ev_from_name := psn_name <$> from_psn;
          ev_to_species_id := ps_id to_ps;
          ev_to_identifier := ps_identifier to_ps;
          ev_to_name := psn_name <$> to_psn;
          ev_trigger_identifier := et_identifier <$> et;
          ev_minimum_level := e_minimum_level e;
          ev_minimum_happiness := e_minimum_happiness e;
          ev_time_of_day := e_time_of_day e;
          ev_item_name := itn_name <$> itn;
          ev_held_item_name := itn_name <$> hitn;
          ev_known_move_name := kmn ≫= mn_name |}).

Definition evolution_edge_of (row : evo_row) : evolution_edge :=
  let condition := describe_evo_step row in
  {| ee_from :=
       match ev_from_species_id row with
       | Some from_species_id =>
           Some {| sp_species_id := from_species_id;
                   sp_identifier := ev_from_identifier row;
                   sp_name := ev_from_name row |}
       | None => None
       end;
     ee_to := {| sp_species_id := ev_to_species_id row;
                 sp_identifier := ev_to_identifier row;
                 sp_name := ev_to_name row |};
     ee_condition := condition |}.

(** *** egg groups, flavor text, sprite *)

Definition egg_groups_query (db : database) (species_id : Z) : list string :=
  snd <$> sort_by Z.le fst
    (peg ← pokemon_egg_groups db;
     egp ← filter (λ egp, egp_egg_group_id egp = peg_egg_group_id peg
                          ∧ egp_local_language_id egp = LANG_EN)
                  (egg_group_prose db);
     where_ (peg_species_id peg = species_id)
       (peg_egg_group_id peg, egp_name egp)).

Definition flavor_text_query (db : database) (species_id : Z)
  : option string :=
  psft_flavor_text <$>
  fetchone (take 1
    (sort_by (flip Z.le) psft_version_id
       (filter (λ ft, psft_species_id ft = species_id
                      ∧ psft_language_id ft = LANG_EN)
               (pokemon_species_flavor_text db)))).

(** [f"/static/sprites/{pokemon_id}.png"] *)
Definition sprite_url_of (pokemon_id : Z) : string :=
  "/static/sprites/" +:+ Py.str_of_int pokemon_id +:+ ".png".

(** *** moves *)

Record move_row := {
  mr_level : Z;
  mr_move_identifier : string;
  mr_move_name : string;
  mr_type_identifier : option string;
  mr_type_name : option string;
  mr_damage_class_identifier : option string;
  mr_damage_class_name : option string;
  mr_power : option Z;
  mr_accuracy : option Z;
  mr_pp : option Z;
  mr_short_effect : option string }.

(** [ORDER BY pm.level, m.identifier] *)
Definition level_then_identifier (a b : Z * string) : Prop :=
  a.1 < b.1 ∨ (a.1 = b.1 ∧ String.le a.2 b.2).

#[global] Instance level_then_identifier_dec :
  RelDecision level_then_identifier :=
  λ a b, decide (a.1 < b.1 ∨ (a.1 = b.1 ∧ String.le a.2 b.2)).

Definition move_key (r : move_row) : Z * string :=
  (mr_level r, mr_move_identifier r).

(** The rows of the moves query before [ORDER BY]. *)
Definition moves_join (db : database) (pokemon_id : Z) : list move_row :=
  pm ← pokemon_moves db;
  m ← filter (λ m, m_id m = pm_move_id pm) (moves db);
  mn ← outer (filter (λ mn, mn_move_id mn = m_id m
                            ∧ mn_local_language_id mn = LANG_EN)
                     (move_names db));
  t ← outer (filter (λ t, Some (ty_id t) = m_type_id m) (types db));
  tn ← outer (filter (λ tn, Some (tn_type_id tn) = ty_id <$> t
                            ∧ tn_local_language_id tn = LANG_EN)
                     (type_names db));
  mdc ← outer (filter (λ c, Some (mdc_id c) = m_damage_class_id m)
                      (move_damage_classes db));
  mdcp ← outer (filter (λ c, Some (mdcp_move_damage_class_id c) = mdc_id <$> mdc
                             ∧ mdcp_local_language_id c = LANG_EN)
                       (move_damage_class_prose db));
  mep ← outer (filter (λ ep, Some (mep_move_effect_id ep) = m_effect_id m
                             ∧ mep_local_language_id ep = LANG_EN)
                      (move_effect_prose db));
  where_ (pm_pokemon_id pm = pokemon_id
          ∧ pm_version_group_id pm = BW_VERSION_GROUP_ID
          ∧ pm_pokemon_move_method_id pm = LEVELUP_METHOD_ID)
    {| mr_level := pm_level pm;
       mr_move_identifier := m_identifier m;
       mr_move_name := coalesce (mn ≫= mn_name) (m_identifier m);
       mr_type_identifier := ty_identifier <$> t;
       mr_type_name := tn_name <$> tn;
       mr_damage_class_identifier := mdc_identifier <$> mdc;
       mr_damage_class_name := mdcp_name <$> mdcp;
       mr_power := m_power m;
       mr_accuracy := m_accuracy m;
       mr_pp := m_pp m;
       mr_short_effect := mep ≫= mep_short_effect |}.

Definition moves_query (db : database) (pokemon_id : Z) : list move_row :=
  sort_by level_then_identifier move_key (moves_join db pokemon_id).

Definition move_entry_of (r : move_row) : move_entry :=
  let effect := one_line (Py.or_empty (mr_short_effect r)) in
  {| mv_name := Py.title (Py.replace_char Py.HYPHEN Py.SP (mr_move_name r));
     mv_level := mr_level r;
     mv_type_identifier := mr_type_identifier r;
     mv_type_name := mr_type_name r;
     mv_category := mr_damage_class_name r;
     mv_power := mr_power r;
     mv_accuracy := mr_accuracy r;
     mv_pp := mr_pp r;
     mv_effect := effect |}.

(** *** forms *)

Record form_row := {
  fr_identifier : string; fr_display_name : string; fr_is_default : Z }.

Definition forms_query (db : database) (species_id : Z) : list form_row :=
  snd <$> sort_by Z.le fst
    (p ← pokemon db;
     pf ← outer (filter (λ pf, pf_pokemon_id pf = p_id p) (pokemon_forms db));
     pfn ← outer (filter (λ pfn, Some (pfn_pokemon_form_id pfn) = pf_id <$> pf
                                 ∧ pfn_local_language_id pfn = LANG_EN)
                         (pokemon_form_names db));
     psn ← filter (λ psn, psn_pokemon_species_id psn = p_species_id p
                          ∧ psn_local_language_id psn = LANG_EN)
                  (pokemon_species_names db);
     where_ (p_species_id p = species_id)
       (p_id p,
        {| fr_identifier := p_identifier p;
           fr_display_name :=
             coalesce (pfn ≫= pfn_pokemon_name) (psn_name psn);
           fr_is_default := p_is_default p |})).

Definition form_entry_of (r : form_row) : form_entry :=
  {| fe_identifier := fr_identifier r; fe_name := fr_display_name r;
     fe_is_default := Py.bool_of_int (fr_is_default r) |}.

(** [forms = [...]] followed by [if len(forms) <= 1: forms = []]. *)
Definition forms_of (rows : list form_row) : list form_entry :=
  let forms := form_entry_of <$> rows in
  if decide (length forms ≤ 1)%nat then [] else forms.

(** *** encounters *)

(** A row of [SELECT vn.name AS version_name, ln.name AS location_name]. *)
Definition encounters_query (db : database) (pokemon_id : Z)
  : list (string * string) :=
  take 40
    (e ← encounters db;
     la ← filter (λ la, la_id la = enc_location_area_id e)
                 (location_areas db);
     l ← filter (λ l, l_id l = la_location_id la) (locations db);
     ln ← filter (λ ln, ln_location_id ln = l_id l
                        ∧ ln_local_language_id ln = LANG_EN)
                 (location_names db);
     v ← filter (λ v, v_id v = enc_version_id e) (versions db);
     vn ← filter (λ vn, vn_version_id vn = v_id v
                        ∧ vn_local_language_id vn = LANG_EN)
                 (version_names db);
     where_ (enc_pokemon_id e = pokemon_id) (vn_name vn, ln_name ln)).

(** [encounter_map.setdefault(ver, set()).add(loc)] on a dict kept in
    insertion order. *)
Fixpoint setdefault_add (ver loc : string)
    (encounter_map : list (string * gset string))
  : list (string * gset string) :=
  match encounter_map with
  | [] => [(ver, {[loc]})]
  | (k, locs) :: rest =>
      if decide (k = ver) then (k, locs ∪ {[loc]}) :: rest
      else (k, locs) :: setdefault_add ver loc rest
  end.

Definition encounter_map_of (rows : list (string * string))
  : list (string * gset string) :=
  foldl (λ encounter_map r, setdefault_add r.1 r.2 encounter_map) [] rows.

(** [sorted(locs)] *)
Definition sorted_set (locs : gset string) : list string :=
  sort_by String.le id (elements locs).

Definition encounters_of (rows : list (string * string))
  : list encounter_entry :=
  sort_by String.le en_version
    ((λ '(ver, locs),
        {| en_version := ver; en_locations := take 5 (sorted_set locs) |})
       <$> encounter_map_of rows).

(** *** prev / next *)

Definition named_species (db : database) : list nav_entry :=
  ps ← pokemon_species db;
  psn ← filter (λ psn, psn_pokemon_species_id psn = ps_id ps
                       ∧ psn_local_language_id psn = LANG_EN)
               (pokemon_species_names db);
  [ {| nav_dex := ps_id ps; nav_identifier := ps_identifier ps;
       nav_name := psn_name psn |} ].

Definition nav_prev_query (db : database) (species_id : Z) : option nav_entry :=
  fetchone (take 1
    (sort_by (flip Z.le) nav_dex
       (filter (λ r, nav_dex r < species_id) (named_species db)))).

Definition nav_next_query (db : database) (species_id : Z) : option nav_entry :=
  fetchone (take 1
    (sort_by Z.le nav_dex
       (filter (λ r, species_id < nav_dex r) (named_species db)))).

(** ** get_pokemon_data *)

(** The block [species info, generation, region]: the six variables it
    leaves behind. *)
Record species_info := {
  si_evo_chain_id : option Z;
  si_growth_rate_name : option string;
  si_capture_rate : option Z;
  si_base_happiness : option Z;
  si_generation_name : option string;
  si_region_name : option string }.

Definition species_info_of (db : database) (species_id : Z) : species_info :=
  match species_query db species_id with
  | None =>
      {| si_evo_chain_id := None; si_growth_rate_name := None;
         si_capture_rate := None; si_base_happiness := None;
         si_generation_name := None; si_region_name := None |}
  | Some srow =>
      let gr :=
        if Py.truthy_int (ps_growth_rate_id srow)
        then growth_rate_query db (default 0 (ps_growth_rate_id srow))
        else None in
      let gen :=
        if Py.truthy_int (ps_generation_id srow)
        then generation_query db (default 0 (ps_generation_id srow))
        else None in
      {| si_evo_chain_id := ps_evolution_chain_id srow;
         si_growth_rate_name := gr;
         si_capture_rate := ps_capture_rate srow;
         si_base_happiness := ps_base_happiness srow;
         si_generation_name := gen ≫= fst;
         si_region_name := gen ≫= snd |}
  end.

(** The block [evolution chain]. *)
Definition evolution_edges_of (db : database) (evo_chain_id : option Z)
  : list evolution_edge :=
  if Py.truthy_int evo_chain_id
  then evolution_edge_of <$> evolution_query db (default 0 evo_chain_id)
  else [].

(** The block [flavor text]. *)
Definition flavor_text_of (db : database) (species_id : Z) : string :=
  match flavor_text_query db species_id with
  | Some ft => one_line ft
  | None => ""
  end.

Definition get_pokemon_data (db : database) (identifier : string)
  : result (option view) :=
  match get_pokemon_basic db identifier with
  | None => Ok None
  | Some base =>
      let pokemon_id := b_id base in
      let species_id := b_species_id base in
      let stat_rows := stats_query db pokemon_id in
      match stat_rows with
      | [] => Ok None
      | _ =>
          let mins_maxs := mins_maxs_query db in
          let stats_total := stats_loop mins_maxs stat_rows in
          let type_rows := types_query db pokemon_id in
          let abilities := ability_entry_of <$> abilities_query db pokemon_id in
          let info := species_info_of db species_id in
          let evolution_edges :=
            evolution_edges_of db (si_evo_chain_id info) in
          let egg_groups := egg_groups_query db species_id in
          let flavor_text := flavor_text_of db species_id in
          let sprite_url := sprite_url_of pokemon_id in
          let moves := move_entry_of <$> moves_query db pokemon_id in
          let forms := forms_of (forms_query db species_id) in
          type_matchups ←ʳ compute_type_matchups db type_rows;
          let encounters := encounters_of (encounters_query db pokemon_id) in
          let nav_prev := nav_prev_query db species_id in
          let nav_next := nav_next_query db species_id in
          Ok (Some
            {| vm_identifier := b_identifier base;
               vm_display_name := b_display_name base;
               vm_dex := species_id;
               vm_stats := stats_total.1;
               vm_total := stats_total.2;
               vm_types :=
                 (λ t, {| tye_identifier := tr_identifier t;
                          tye_name := tr_name t |}) <$> type_rows;
               vm_abilities := abilities;
               vm_sprite_url := sprite_url;
               vm_moves := moves;
               vm_evolutions := evolution_edges;
               vm_egg_groups := egg_groups;
               vm_growth_rate := si_growth_rate_name info;
               vm_capture_rate := si_capture_rate info;
               vm_base_happiness := si_base_happiness info;
               vm_flavor_text := flavor_text;
               vm_generation := si_generation_name info;
               vm_region := si_region_name info;
               vm_type_matchups := type_matchups;
               vm_forms := forms;
               vm_nav_prev := nav_prev;
               vm_nav_next := nav_next;
               vm_encounters := encounters |})
      end
  end.

(** ** get_random_species_identifier *)

(** [SELECT id FROM pokemon_species ORDER BY RANDOM() LIMIT 1]: one row
    of the table, or none when it is empty.  Which row is the outcome of
    the random draw, [draw]. *)
Definition random_species_query (db : database) (draw : nat)
  : option pokemon_species_row :=
  pokemon_species db !! (draw `mod` length (pokemon_species db))%nat.

Definition default_form_query (db : database) (species_id : Z)
  : option string :=
  fetchone (take 1
    (p_identifier <$>
       filter (λ p, p_species_id p = species_id ∧ p_is_default p = 1)
              (pokemon db))).

Definition get_random_species_identifier (db : database) (draw : nat)
  : string :=
  match random_species_query db draw with
  | None => "pikachu"
  | Some row =>
      let species_id := ps_id row in
      match default_form_query db species_id with
      | Some identifier => identifier
      | None => "pikachu"
      end
  end.

(** ** The routes *)

(** [str.strip()]: leading and trailing whitespace removed.  The
    whitespace characters below 128 are the tab to carriage return range,
    the separators 28 to 31 and the space. *)
Definition is_space (c : ascii) : bool :=
  let n := nat_of_ascii c in
  ((9 <=? n)%nat && (n <=? 13)%nat) || ((28 <=? n)%nat && (n <=? 32)%nat).

Fixpoint lstrip (s : string) : string :=
  match s with
  | EmptyString => EmptyString
  | String c s' => if is_space c then lstrip s' else s
  end.

Fixpoint rstrip (s : string) : string :=
  match s with
  | EmptyString => EmptyString
  | String c s' =>
      match rstrip s' with
      | EmptyString => if is_space c then EmptyString else String c EmptyString
      | rest => String c rest
      end
  end.

Definition strip (s : string) : string := rstrip (lstrip s).

(** What a page route returns: a rendering of [index.html] with its
    [data] and [pokemon_name], or
    [redirect(url_for("pokemon_detail", identifier=...))], recorded by the
    identifier handed to [url_for].  The URL that [url_for] builds from
    it and the routing of the request that follows the redirect are
    outside the model. *)
Inductive response :=
| RenderIndex (data : option view) (pokemon_name : string)
| RedirectToDetail (identifier : string).

(** [index()] on a POST carrying the form field [pokemon_name] (the empty
    string when the field is missing), and on a GET ([None]). *)
Definition index (posted : option string) : response :=
  match posted with
  | Some pokemon_name =>
      let name := Py.lower (strip pokemon_name) in
      if String.eqb name "" then RenderIndex None ""
      else RedirectToDetail name
  | None => RenderIndex None ""
  end.

(** [pokemon_detail(identifier)] *)
Definition pokemon_detail (db : database) (identifier : string)
  : result response :=
  let pokemon_name := Py.lower identifier in
  data ←ʳ get_pokemon_data db pokemon_name;
  Ok (RenderIndex data pokemon_name).

(** [random_pokemon()] *)
Definition random_pokemon (db : database) (draw : nat) : response :=
  let ident := get_random_species_identifier db draw in
  RedirectToDetail ident.

(** *** pokemon_suggest *)

(** SQLite's [LIKE]: [%] stands for any run of characters, [_] for any
    one character, and any other character for itself, letters of either
    case alike. *)
Fixpoint like_from (like_rest : list ascii → bool) (s : list ascii) : bool :=
  like_rest s
  || match s with
     | [] => false
     | _ :: s' => like_from like_rest s'
     end.

Fixpoint sql_like (pattern s : list ascii) : bool :=
  match pattern with
  | [] => match s with [] => true | _ => false end
  | c :: pattern' =>
      if Ascii.eqb c "%" then like_from (sql_like pattern') s
      else
        match s with
        | [] => false
        | d :: s' =>
            (Ascii.eqb c "_" || Ascii.eqb (Py.to_lower c) (Py.to_lower d))
            && sql_like pattern' s'
        end
  end.

Definition LIKE (s pattern : string) : Prop :=
  sql_like (list_ascii_of_string pattern) (list_ascii_of_string s) = true.

#[global] Instance LIKE_dec (s pattern : string) : Decision (LIKE s pattern) :=
  decide (sql_like (list_ascii_of_string pattern) (list_ascii_of_string s)
          = true).

(** A row of the suggestion query, with the keys it is filtered and
    ordered on. *)
Record suggest_row := {
  sg_identifier : string; sg_display_name : string;
  sg_species_name : string; sg_is_default : Z }.

Definition suggest_query (db : database) (like : string) : list suggest_row :=
  take 8
    (sort_by String.le sg_species_name
       (p ← pokemon db;
        pf ← outer (filter (λ pf, pf_pokemon_id pf = p_id p)
                           (pokemon_forms db));
        pfn ← outer (filter (λ pfn, Some (pfn_pokemon_form_id pfn) = pf_id <$> pf
                                    ∧ pfn_local_language_id pfn = LANG_EN)
                            (pokemon_form_names db));
        psn ← filter (λ psn, psn_pokemon_species_id psn = p_species_id p
                             ∧ psn_local_language_id psn = LANG_EN)
                     (pokemon_species_names db);
        where_ (p_is_default p = 1
                ∧ (LIKE (p_identifier p) like ∨ LIKE (psn_name psn) like))
          {| sg_identifier := p_identifier p;
             sg_display_name :=
               coalesce (pfn ≫= pfn_pokemon_name) (psn_name psn);
             sg_species_name := psn_name psn;
             sg_is_default := p_is_default p |})).

(** [pokemon_suggest()] for the query string [q] (the empty string when
    the parameter is missing): the [results] of the JSON body, each an
    [id] and a [name]. *)
Definition pokemon_suggest (db : database) (q : string)
  : list (string * string) :=
  let q := strip q in
  if String.eqb q "" then []
  else
    let like := Py.lower q +:+ "%" in
    (λ r, (sg_identifier r, sg_display_name r)) <$> suggest_query db like.

(** ** The specification's wording of the derived fields

    These definitions follow the specification, not [app.py]; the
    theorems below compare them with the embedding of the code. *)

(** The product of the damage factors, as fractions of 100, of one
    attacking type against the defending types: a product of doubles,
    taken from 1 in the order of the efficacy rows. *)
Definition product_of_factors (db : database) (type_ids : list Z) (atk : Z)
  : float :=
  foldl float_mul F_1_0
    ((λ r, float_div (float_of_int (te_damage_factor r)) F_100) <$>
       filter (λ r, te_damage_type_id r = atk) (efficacy_query db type_ids)).

(** The multiplier of an attacking type: that product rounded to two
    decimal places. *)
Definition rounded_multiplier (db : database) (type_ids : list Z)
    (row : type_row) : float :=
  py_round (product_of_factors db type_ids (tr_id row)) 2.

Definition half : Qc := Q2Qc (1 # 2).

(** [m] is [x] rounded to two decimal places: the double written [k/100]
    for the integer [k] within one half of 100 times the magnitude of
    [x], the even one of the two when [x] lies half way, with the sign of
    [x].  A zero, an infinity and NaN are their own rounding. *)
Definition rounded_to_2_places (x m : float) : Prop :=
  match x with
  | S754_finite s _ _ =>
      let scaled := (float_value (SFabs x) * Qc_of_Z 100)%Qc in
      ∃ k : Z,
        (Qc_of_Z k - half ≤ scaled ≤ Qc_of_Z k + half)%Qc
        ∧ ((scaled = Qc_of_Z k + half ∨ scaled = Qc_of_Z k - half)%Qc →
           Z.even k = true)
        ∧ m = float_of_decimal s k 2
  | _ => m = x
  end.

(** The product of damage factors as fractions of 100, in exact
    arithmetic. *)
Definition exact_product (rows : list type_efficacy_row) : Qc :=
  foldr Qcmult 1%Qc
    ((λ r, Qc_of_Z (te_damage_factor r) / Qc_of_Z 100)%Qc <$> rows).

(** The entry the classification files for an attacking type. *)
Definition classified_entry (db : database) (type_ids : list Z)
    (row : type_row) : matchup_entry :=
  {| me_identifier := tr_identifier row; me_name := tr_name row;
     me_multiplier := rounded_multiplier db type_ids row |}.

(** [clamp(round(value / 180 * 100), 5, 100)] *)
Definition percent_by_rounding (value : Z) : Z :=
  Z.max 5 (Z.min (round_half_even (Qc_of_Z value / Qc_of_Z 180
                                   * Qc_of_Z 100)%Qc) 100).

(** The path template [/sprites/{form_id}.png]. *)
Definition sprite_template (form_id : Z) : string :=
  "/sprites/" +:+ Py.str_of_int form_id +:+ ".png".

(** A local path below [/static/sprites/]: the file [file] inside the
    nested [folders], none for a file directly in [/static/sprites/]. *)
Definition static_sprite_path (folders : list string) (file : string)
  : string :=
  "/static/sprites/"
  +:+ foldr (λ folder rest, folder +:+ "/" +:+ rest) file folders.

(** A trigger field is present when it is neither NULL nor the zero or
    empty value (Python truthiness, which is what [app.py] tests). *)
Definition present_int (o : option Z) : option Z :=
  n ← o; if decide (n = 0) then None else Some n.

Definition present_str (o : option string) : option string :=
  s ← o; if decide (s = "") then None else Some s.

(** The clause a field contributes, as a list of zero or one part. *)
Definition clause_list (clause : option string) : list string :=
  option_list clause.

(** The clauses of an evolution edge in the fixed field order: minimum
    level, item use, held item, happiness, known move, time of day. *)
Definition trigger_clauses (row : evo_row) : list string :=
  omap id
    [ (λ n, "Level " +:+ Py.str_of_int n) <$> present_int (ev_minimum_level row);
      (λ s, "Use " +:+ s) <$> present_str (ev_item_name row);
      (λ s, "Holding " +:+ s) <$> present_str (ev_held_item_name row);
      (λ _, "High friendship") <$> present_int (ev_minimum_happiness row);
      (λ s, "Knows " +:+ s) <$> present_str (ev_known_move_name row);
      Py.capitalize <$> present_str (ev_time_of_day row) ].

(** A hyphenated identifier as title-cased words. *)
Definition title_case_identifier (identifier : string) : string :=
  Py.title (Py.replace_char Py.HYPHEN Py.SP identifier).

Definition condition_text (row : evo_row) : string :=
  match trigger_clauses row with
  | [] =>
      match present_str (ev_trigger_identifier row) with
      | Some trigger => title_case_identifier trigger
      | None => ""
      end
  | clauses => Py.join ", " clauses
  end.

(** The character map of [one_line]. *)
Definition blank_breaks (c : ascii) : ascii :=
  if decide (c = Py.LF ∨ c = Py.FF) then Py.SP else c.

Definition chars (s : string) : list ascii := list_ascii_of_string s.

(** [s] holds ASCII characters only.  On such a string [str.lower] and
    [str.strip] are the ASCII case mapping and trimming of this file. *)
Definition ascii_only (s : string) : Prop :=
  Forall (λ c, (nat_of_ascii c < 128)%nat) (chars s).

#[global] Instance ascii_only_dec (s : string) : Decision (ascii_only s) :=
  decide (Forall (λ c, (nat_of_ascii c < 128)%nat) (chars s)).

(** [text] is [raw] with every newline and form feed replaced by a
    space. *)
Definition breaks_blanked (raw text : string) : Prop :=
  chars text = blank_breaks <$> chars raw.

(** [text] contains neither a newline nor a form feed. *)
Definition no_breaks (text : string) : Prop :=
  ¬ Py.LF ∈ chars text ∧ ¬ Py.FF ∈ chars text.

(** [int(value / 180 * 100)] in integer arithmetic, rounding toward
    zero, then clamped to [5, 100]. *)
Definition percent_by_truncation (value : Z) : Z :=
  Z.max 5 (Z.min (Z.quot (value * 100) 180) 100).

(** The locations recorded for one version among raw encounter rows. *)
Definition locations_of (rows : list (string * string)) (ver : string)
  : gset string :=
  list_to_set (snd <$> filter (λ r, r.1 = ver) rows).

(** ** A sample dataset

    An excerpt in the shape of the reference dataset: the Pichu line,
    Gengar, Eevee, Unown with two cosmetic form rows under its single
    Form,
    Deoxys with two Forms, one Form ([missingno]) whose Species has no
    English name, and one attacking type ([shadow]) without one. *)
Module Sample.

Definition LF : string := String Py.LF "".
Definition FF : string := String Py.FF "".

Definition db : database := {|
  pokemon := [
    Build_pokemon_row 25 "pikachu" 25 1;
    Build_pokemon_row 26 "raichu" 26 1;
    Build_pokemon_row 94 "gengar" 94 1;
    Build_pokemon_row 133 "eevee" 133 1;
    Build_pokemon_row 172 "pichu" 172 1;
    Build_pokemon_row 201 "unown" 201 1;
    Build_pokemon_row 386 "deoxys-normal" 386 1;
    Build_pokemon_row 10001 "deoxys-attack" 386 0;
    Build_pokemon_row 9001 "missingno" 9001 1 ];
  pokemon_forms := [
    Build_pokemon_forms_row 25 25;
    Build_pokemon_forms_row 26 26;
    Build_pokemon_forms_row 94 94;
    Build_pokemon_forms_row 133 133;
    Build_pokemon_forms_row 172 172;
    Build_pokemon_forms_row 201 201;
    Build_pokemon_forms_row 10002 201;
    Build_pokemon_forms_row 386 386;
    Build_pokemon_forms_row 10031 10001;
    Build_pokemon_forms_row 9001 9001 ];
  pokemon_form_names := [
    Build_pokemon_form_names_row 201 9 None;
    Build_pokemon_form_names_row 10002 9 None;
    Build_pokemon_form_names_row 386 9 (Some "Deoxys Normal Forme");
    Build_pokemon_form_names_row 10031 9 (Some "Deoxys Attack Forme") ];
  pokemon_species := [
    Build_pokemon_species_row 25 "pikachu" (Some 172) (Some 10)
      (Some 2) (Some 190) (Some 70) (Some 1);
    Build_pokemon_species_row 26 "raichu" (Some 25) (Some 10)
      (Some 2) (Some 75) (Some 70) (Some 1);
    Build_pokemon_species_row 93 "haunter" (Some 92) (Some 40)
      (Some 4) (Some 90) (Some 70) (Some 1);
    Build_pokemon_species_row 94 "gengar" (Some 93) (Some 40)
      (Some 4) (Some 45) (Some 70) (Some 1);
    Build_pokemon_species_row 133 "eevee" None (Some 67)
      (Some 2) (Some 45) (Some 70) (Some 1);
    Build_pokemon_species_row 172 "pichu" None (Some 10)
      (Some 2) (Some 190) (Some 70) (Some 2);
    Build_pokemon_species_row 201 "unown" None (Some 101)
      (Some 2) (Some 225) (Some 70) (Some 2);
    Build_pokemon_species_row 386 "deoxys" None (Some 202)
      (Some 1) (Some 3) (Some 0) (Some 3);
    Build_pokemon_species_row 9001 "missingno" None None
      None None None None ];
  pokemon_species_names := [
    Build_pokemon_species_names_row 25 9 "Pikachu";
    Build_pokemon_species_names_row 25 1 "Pikachuu";
    Build_pokemon_species_names_row 26 9 "Raichu";
    Build_pokemon_species_names_row 93 9 "Haunter";
    Build_pokemon_species_names_row 94 9 "Gengar";
    Build_pokemon_species_names_row 133 9 "Eevee";
    Build_pokemon_species_names_row 172 9 "Pichu";
    Build_pokemon_species_names_row 201 9 "Unown";
    Build_pokemon_species_names_row 386 9 "Deoxys";
    Build_pokemon_species_names_row 9001 1 "Ketsuban" ];
  pokemon_species_flavor_text := [
    Build_pokemon_species_flavor_text_row 25 1 9
      ("When several of these Pokemon gather," +:+ LF
       +:+ "their electricity could build" +:+ FF +:+ "and cause storms.");
    Build_pokemon_species_flavor_text_row 25 17 9
      ("It occasionally uses an electric" +:+ LF
       +:+ "shock to recharge a fellow Pikachu" +:+ LF
       +:+ "that is in a weakened state.");
    Build_pokemon_species_flavor_text_row 26 17 9
      ("Its tail discharges electricity" +:+ LF +:+ "into the ground.") ];
  types := [
    Build_types_row 1 "normal"; Build_types_row 2 "fighting";
    Build_types_row 3 "flying"; Build_types_row 4 "poison";
    Build_types_row 5 "ground";
    Build_types_row 7 "bug"; Build_types_row 8 "ghost";
    Build_types_row 9 "steel"; Build_types_row 13 "electric";
    Build_types_row 14 "psychic"; Build_types_row 17 "dark";
    Build_types_row 10002 "shadow" ];
  type_names := [
    Build_type_names_row 1 9 "Normal"; Build_type_names_row 2 9 "Fighting";
    Build_type_names_row 3 9 "Flying"; Build_type_names_row 4 9 "Poison";
    Build_type_names_row 5 9 "Ground";
    Build_type_names_row 7 9 "Bug"; Build_type_names_row 8 9 "Ghost";
    Build_type_names_row 9 9 "Steel"; Build_type_names_row 13 9 "Electric";
    Build_type_names_row 14 9 "Psychic"; Build_type_names_row 17 9 "Dark";
    Build_type_names_row 13 5 "Electrik" ];
  type_efficacy := [
    Build_type_efficacy_row 1 13 100;
    Build_type_efficacy_row 3 13 50;
    Build_type_efficacy_row 5 13 200;
    Build_type_efficacy_row 9 13 50;
    Build_type_efficacy_row 13 13 50;
    Build_type_efficacy_row 2 14 50;
    Build_type_efficacy_row 7 14 200;
    Build_type_efficacy_row 8 14 200;
    Build_type_efficacy_row 14 14 50;
    Build_type_efficacy_row 17 14 200;
    Build_type_efficacy_row 1 8 0;
    Build_type_efficacy_row 2 8 0;
    Build_type_efficacy_row 4 8 50;
    Build_type_efficacy_row 7 8 50;
    Build_type_efficacy_row 8 8 200;
    Build_type_efficacy_row 17 8 200;
    Build_type_efficacy_row 2 4 50;
    Build_type_efficacy_row 4 4 50;
    Build_type_efficacy_row 5 4 200;
    Build_type_efficacy_row 7 4 50;
    Build_type_efficacy_row 14 4 200;
    Build_type_efficacy_row 2 1 200;
    Build_type_efficacy_row 8 1 0;
    Build_type_efficacy_row 10002 1 200 ];
  pokemon_types := [
    Build_pokemon_types_row 25 13 1; Build_pokemon_types_row 26 13 1;
    Build_pokemon_types_row 94 4 2; Build_pokemon_types_row 94 8 1;
    Build_pokemon_types_row 133 1 1;
    Build_pokemon_types_row 172 13 1; Build_pokemon_types_row 201 14 1;
    Build_pokemon_types_row 386 14 1; Build_pokemon_types_row 10001 14 1;
    Build_pokemon_types_row 9001 1 1 ];
  stats := [
    Build_stats_row 1 "hp"; Build_stats_row 2 "attack";
    Build_stats_row 3 "defense"; Build_stats_row 4 "special-attack";
    Build_stats_row 5 "special-defense"; Build_stats_row 6 "speed" ];
  stat_names := [
    Build_stat_names_row 1 9 "HP"; Build_stat_names_row 2 9 "Attack";
    Build_stat_names_row 3 9 "Defense";
    Build_stat_names_row 4 9 "Special Attack";
    Build_stat_names_row 5 9 "Special Defense";
    Build_stat_names_row 6 9 "Speed" ];
  pokemon_stats := [
    Build_pokemon_stats_row 25 1 35; Build_pokemon_stats_row 25 2 55;
    Build_pokemon_stats_row 25 3 30; Build_pokemon_stats_row 25 4 50;
    Build_pokemon_stats_row 25 5 40; Build_pokemon_stats_row 25 6 90;
    Build_pokemon_stats_row 26 1 60; Build_pokemon_stats_row 26 2 90;
    Build_pokemon_stats_row 26 3 55; Build_pokemon_stats_row 26 4 90;
    Build_pokemon_stats_row 26 5 80; Build_pokemon_stats_row 26 6 100;
    Build_pokemon_stats_row 94 1 60; Build_pokemon_stats_row 94 2 65;
    Build_pokemon_stats_row 94 3 60; Build_pokemon_stats_row 94 4 130;
    Build_pokemon_stats_row 94 5 75; Build_pokemon_stats_row 94 6 110;
    Build_pokemon_stats_row 133 1 55; Build_pokemon_stats_row 133 2 55;
    Build_pokemon_stats_row 133 3 50; Build_pokemon_stats_row 133 4 45;
    Build_pokemon_stats_row 133 5 65; Build_pokemon_stats_row 133 6 55;
    Build_pokemon_stats_row 172 1 20; Build_pokemon_stats_row 172 2 40;
    Build_pokemon_stats_row 172 3 15; Build_pokemon_stats_row 172 4 35;
    Build_pokemon_stats_row 172 5 35; Build_pokemon_stats_row 172 6 60;
    Build_pokemon_stats_row 201 1 48; Build_pokemon_stats_row 201 2 72;
    Build_pokemon_stats_row 201 3 48; Build_pokemon_stats_row 201 4 72;
    Build_pokemon_stats_row 201 5 48; Build_pokemon_stats_row 201 6 48;
    Build_pokemon_stats_row 386 1 50; Build_pokemon_stats_row 386 2 150;
    Build_pokemon_stats_row 386 3 50; Build_pokemon_stats_row 386 4 150;
    Build_pokemon_stats_row 386 5 50; Build_pokemon_stats_row 386 6 150;
    Build_pokemon_stats_row 10001 1 50; Build_pokemon_stats_row 10001 2 180;
    Build_pokemon_stats_row 10001 3 20; Build_pokemon_stats_row 10001 4 180;
    Build_pokemon_stats_row 10001 5 20; Build_pokemon_stats_row 10001 6 150;
    Build_pokemon_stats_row 9001 1 33; Build_pokemon_stats_row 9001 2 136;
    Build_pokemon_stats_row 9001 3 0; Build_pokemon_stats_row 9001 4 6;
    Build_pokemon_stats_row 9001 5 6; Build_pokemon_stats_row 9001 6 29 ];
  abilities := [
    Build_abilities_row 9 "static"; Build_abilities_row 26 "levitate";
    Build_abilities_row 31 "lightning-rod";
    Build_abilities_row 46 "pressure" ];
  ability_names := [
    Build_ability_names_row 9 9 "Static";
    Build_ability_names_row 26 9 "Levitate";
    Build_ability_names_row 31 9 "Lightning Rod";
    Build_ability_names_row 46 9 "Pressure" ];
  ability_flavor_text := [
    Build_ability_flavor_text_row 9 5 9
      (Some ("Paralyzes on contact."));
    Build_ability_flavor_text_row 9 11 9
      (Some ("Contact with the Pokemon" +:+ LF +:+ "may cause paralysis."));
    Build_ability_flavor_text_row 26 11 9
      (Some ("Gives full immunity to all" +:+ LF +:+ "Ground-type moves."));
    Build_ability_flavor_text_row 46 11 9 None ];
  pokemon_abilities := [
    Build_pokemon_abilities_row 25 31 1 3;
    Build_pokemon_abilities_row 25 9 0 1;
    Build_pokemon_abilities_row 26 9 0 1;
    Build_pokemon_abilities_row 94 26 0 1;
    Build_pokemon_abilities_row 172 9 0 1;
    Build_pokemon_abilities_row 201 26 0 1;
    Build_pokemon_abilities_row 386 46 0 1;
    Build_pokemon_abilities_row 10001 46 0 1 ];
  growth_rates := [
    Build_growth_rates_row 1 "slow"; Build_growth_rates_row 2 "medium";
    Build_growth_rates_row 4 "medium-slow" ];
  growth_rate_prose := [
    Build_growth_rate_prose_row 2 9 (Some "medium");
    Build_growth_rate_prose_row 1 5 (Some "lente") ];
  generations := [
    Build_generations_row 1 (Some 1); Build_generations_row 2 (Some 2);
    Build_generations_row 3 None ];
  generation_names := [
    Build_generation_names_row 1 9 "Generation I";
    Build_generation_names_row 2 9 "Generation II";
    Build_generation_names_row 3 9 "Generation III" ];
  regions := [ Build_regions_row 1; Build_regions_row 2 ];
  region_names := [
    Build_region_names_row 1 9 "Kanto"; Build_region_names_row 2 9 "Johto" ];
  pokemon_evolution := [
    Build_pokemon_evolution_row 25 (Some 1) None None None None
      (Some 220) None;
    Build_pokemon_evolution_row 26 (Some 3) (Some 83) None None None
      None None;
    Build_pokemon_evolution_row 94 (Some 2) None None None None
      None None ];
  evolution_triggers := [
    Build_evolution_triggers_row 1 "level-up";
    Build_evolution_triggers_row 2 "trade";
    Build_evolution_triggers_row 3 "use-item" ];
  items := [ Build_items_row 83 ];
  item_names := [ Build_item_names_row 83 9 "Thunder Stone" ];
  moves := [
    Build_moves_row 39 "tail-whip" (Some 1) (Some 1) (Some 20)
      None (Some 100) (Some 30);
    Build_moves_row 45 "growl" (Some 1) (Some 1) (Some 19)
      None (Some 100) (Some 40);
    Build_moves_row 84 "thunder-shock" (Some 13) (Some 3) (Some 7)
      (Some 40) (Some 100) (Some 30);
    Build_moves_row 85 "thunderbolt" (Some 13) (Some 3) (Some 7)
      (Some 95) (Some 100) (Some 15);
    Build_moves_row 86 "thunder-wave" (Some 13) (Some 1) (Some 68)
      None (Some 100) (Some 20);
    Build_moves_row 98 "quick-attack" (Some 1) (Some 2) (Some 104)
      (Some 40) (Some 100) (Some 30);
    Build_moves_row 344 "volt-tackle" (Some 13) (Some 2) (Some 263)
      (Some 120) (Some 100) (Some 15) ];
  move_names := [
    Build_move_names_row 39 9 (Some "Tail Whip");
    Build_move_names_row 45 9 (Some "Growl");
    Build_move_names_row 84 9 (Some "ThunderShock");
    Build_move_names_row 85 9 (Some "Thunderbolt");
    Build_move_names_row 86 9 (Some "Thunder Wave") ];
  move_damage_classes := [
    Build_move_damage_classes_row 1 "status";
    Build_move_damage_classes_row 2 "physical";
    Build_move_damage_classes_row 3 "special" ];
  move_damage_class_prose := [
    Build_move_damage_class_prose_row 1 9 "status";
    Build_move_damage_class_prose_row 2 9 "physical";
    Build_move_damage_class_prose_row 3 9 "special" ];
  move_effect_prose := [
    Build_move_effect_prose_row 7 9
      (Some ("Has a 10% chance to" +:+ LF +:+ "paralyze the target."));
    Build_move_effect_prose_row 19 9
      (Some "Lowers the target's Attack by one stage.");
    Build_move_effect_prose_row 20 9
      (Some "Lowers the target's Defense by one stage.");
    Build_move_effect_prose_row 68 9 (Some "Paralyzes the target.");
    Build_move_effect_prose_row 104 9 None ];
  pokemon_moves := [
    Build_pokemon_moves_row 25 11 98 1 13;
    Build_pokemon_moves_row 25 11 86 1 10;
    Build_pokemon_moves_row 25 11 84 1 1;
    Build_pokemon_moves_row 25 11 45 1 1;
    Build_pokemon_moves_row 25 11 39 1 5;
    Build_pokemon_moves_row 25 11 85 4 0;
    Build_pokemon_moves_row 25 11 344 2 0;
    Build_pokemon_moves_row 25 1 85 1 26;
    Build_pokemon_moves_row 26 11 84 1 1;
    Build_pokemon_moves_row 26 11 39 1 1 ];
  pokemon_egg_groups := [
    Build_pokemon_egg_groups_row 25 6; Build_pokemon_egg_groups_row 25 5;
    Build_pokemon_egg_groups_row 26 5; Build_pokemon_egg_groups_row 26 6 ];
  egg_group_prose := [
    Build_egg_group_prose_row 5 9 "Field";
    Build_egg_group_prose_row 6 9 "Fairy" ];
  encounters := [
    Build_encounters_row 1 321 25;
    Build_encounters_row 2 321 25;
    Build_encounters_row 1 330 25;
    Build_encounters_row 15 321 25;
    Build_encounters_row 15 322 25;
    Build_encounters_row 15 330 25;
    Build_encounters_row 15 340 25;
    Build_encounters_row 15 341 25;
    Build_encounters_row 15 342 25;
    Build_encounters_row 15 343 25;
    Build_encounters_row 15 321 25;
    Build_encounters_row 1 330 26 ];
  location_areas := [
    Build_location_areas_row 321 155; Build_location_areas_row 322 155;
    Build_location_areas_row 330 158; Build_location_areas_row 340 160;
    Build_location_areas_row 341 161; Build_location_areas_row 342 162;
    Build_location_areas_row 343 163 ];
  locations := [
    Build_locations_row 155; Build_locations_row 158;
    Build_locations_row 160; Build_locations_row 161;
    Build_locations_row 162; Build_locations_row 163 ];
  location_names := [
    Build_location_names_row 155 9 "Viridian Forest";
    Build_location_names_row 158 9 "Power Plant";
    Build_location_names_row 160 9 "Route 2";
    Build_location_names_row 161 9 "Safari Zone";
    Build_location_names_row 162 9 "Trophy Garden";
    Build_location_names_row 163 9 "Cerulean Cave" ];
  versions := [
    Build_versions_row 1; Build_versions_row 2; Build_versions_row 15 ];
  version_names := [
    Build_version_names_row 1 9 "Red"; Build_version_names_row 2 9 "Blue";
    Build_version_names_row 15 9 "HeartGold" ] |}.

End Sample.

(** * Properties *)

(** ** Sorting and fetching *)

Section sort_by_facts.
Context {A K : Type} (le : K → K → Prop) `{!RelDecision le} (key : A → K).

#[local] Abbreviation key_rel := (key_rel le key).

Lemma insert_by_Permutation x l : insert_by le key x l ≡ₚ x :: l.
Proof.
  induction l as [|y l IH]; simpl; [done|].
  case_decide; [done|]. by rewrite IH, Permutation_swap.
Qed.

Lemma sort_by_Permutation l : sort_by le key l ≡ₚ l.
Proof.
  induction l as [|x l IH]; simpl; [done|].
  by rewrite insert_by_Permutation, IH.
Qed.

Lemma elem_of_sort_by x l : x ∈ sort_by le key l ↔ x ∈ l.
Proof. by rewrite sort_by_Permutation. Qed.

Lemma length_sort_by l : length (sort_by le key l) = length l.
Proof. by rewrite sort_by_Permutation. Qed.

Lemma sort_by_nil_inv l : sort_by le key l = [] → l = [].
Proof.
  intros E. apply Permutation_nil_r. by rewrite <-E, sort_by_Permutation.
Qed.

Lemma NoDup_sort_by l : NoDup l → NoDup (sort_by le key l).
Proof. by rewrite sort_by_Permutation. Qed.

Context `{!Total le}.

Lemma HdRel_insert_by x y l :
  key_rel y x → HdRel key_rel y l → HdRel key_rel y (insert_by le key x l).
Proof.
  intros Hyx [|z l' Hyz]; simpl; [by constructor|].
  case_decide; by constructor.
Qed.

Lemma Sorted_insert_by x l :
  Sorted key_rel l → Sorted key_rel (insert_by le key x l).
Proof.
  induction 1 as [|y l Hl IH Hhd]; simpl.
  - by repeat constructor.
  - case_decide as Hxy.
    + constructor; [by constructor|by constructor].
    + constructor; [done|]. apply HdRel_insert_by; [|done].
      by destruct (total le (key x) (key y)).
Qed.

Lemma Sorted_sort_by l : Sorted key_rel (sort_by le key l).
Proof.
  induction l; simpl; [constructor|by apply Sorted_insert_by].
Qed.

Context `{!Transitive le}.

#[local] Instance key_rel_trans : Transitive key_rel.
Proof. intros x y z. unfold key_rel. apply transitivity. Qed.

Lemma StronglySorted_sort_by l : StronglySorted key_rel (sort_by le key l).
Proof. apply Sorted_StronglySorted; [apply _|apply Sorted_sort_by]. Qed.

(** The first row of a sorted result is a least one of the input. *)
Lemma head_sort_by_Some l x :
  head (sort_by le key l) = Some x →
  x ∈ l ∧ ∀ y, y ∈ l → le (key x) (key y).
Proof.
  intros Hhd. pose proof (StronglySorted_sort_by l) as Hs.
  destruct (sort_by le key l) as [|x' s] eqn:E; simplify_eq/=.
  split.
  - apply elem_of_sort_by. rewrite E. left.
  - intros y Hy. apply elem_of_sort_by in Hy. rewrite E in Hy.
    apply StronglySorted_inv in Hs as [_ Hall].
    apply elem_of_cons in Hy as [->|Hy].
    + destruct (total le (key x) (key x)); done.
    + rewrite Forall_forall in Hall. by apply Hall.
Qed.

Lemma head_sort_by_None l : head (sort_by le key l) = None ↔ l = [].
Proof.
  split.
  - intros Hhd. apply sort_by_nil_inv.
    by destruct (sort_by le key l).
  - by intros ->.
Qed.
End sort_by_facts.

Lemma fetchone_take_1 {A} (l : list A) : fetchone (take 1 l) = head l.
Proof. by destruct l. Qed.

Lemma elem_of_outer {B} (matches : list B) (o : option B) :
  o ∈ outer matches ↔
  (matches = [] ∧ o = None) ∨ (∃ b, o = Some b ∧ b ∈ matches).
Proof.
  unfold outer. destruct matches as [|b bs].
  - rewrite list_elem_of_singleton. split; [by left|].
    intros [[_ ->]|(b & _ & Hb)]; [done|by apply elem_of_nil in Hb].
  - rewrite list_elem_of_fmap. split.
    + intros (b' & -> & Hb'). right. eauto.
    + intros [[? _]|(b' & -> & Hb')]; [done|eauto].
Qed.

Lemma elem_of_where_ {A} (P : Prop) `{!Decision P} (row x : A) :
  x ∈ where_ P row ↔ P ∧ x = row.
Proof.
  unfold where_. destruct (decide P) as [HP|HP].
  - rewrite list_elem_of_singleton. split; [by intros ->|by intros [_ ->]].
  - split; [by intros ?%elem_of_nil|by intros [? _]].
Qed.

(** ** Evolution conditions *)

Section describe_evo_step_facts.

Lemma append_if_int (o : option Z) (clause : Z → string) parts :
  append_if (Py.truthy_int o) (clause (default 0 o)) parts
  = parts ++ clause_list (clause <$> present_int o).
Proof.
  unfold append_if, present_int, clause_list.
  destruct o as [n|]; simpl; [|by rewrite app_nil_r].
  destruct (decide (n = 0)) as [->|Hn]; simpl; [by rewrite app_nil_r|].
  by apply Z.eqb_neq in Hn as ->.
Qed.

Lemma truthy_str_or_empty (o : option string) :
  negb (String.eqb (Py.or_empty o) "") = Py.truthy_str o.
Proof. by destruct o. Qed.

Lemma append_if_str (o : option string) (clause : string → string) parts :
  append_if (Py.truthy_str o) (clause (Py.or_empty o)) parts
  = parts ++ clause_list (clause <$> present_str o).
Proof.
  unfold append_if, present_str, clause_list.
  destruct o as [s|]; simpl; [|by rewrite app_nil_r].
  destruct (decide (s = "")) as [->|Hs]; simpl; [by rewrite app_nil_r|].
  by apply String.eqb_neq in Hs as ->.
Qed.

Lemma omap_id_cons (o : option string) (os : list (option string)) :
  omap id (o :: os) = clause_list o ++ omap id os.
Proof. by destruct o. Qed.

Lemma join_eq_empty (parts : list string) :
  (if String.eqb (Py.join ", " parts) "" then "" else Py.join ", " parts)
  = Py.join ", " parts.
Proof. by destruct (String.eqb_spec (Py.join ", " parts) "") as [->|]. Qed.

End describe_evo_step_facts.

(** C5.  The condition text of an evolution edge is the comma-separated
    list of the clauses of the trigger fields that are present, in the
    order minimum level, item use, held item, happiness (as the fixed
    phrase [High friendship]), known move, time of day; with no field
    present it is the trigger identifier in title case, and with no
    trigger either it is the empty string. *)
Theorem describe_evo_step_condition_text (row : evo_row) :
  describe_evo_step row = condition_text row.
Proof.
  unfold describe_evo_step, condition_text.
  rewrite join_eq_empty.
  rewrite (append_if_int _ (λ n, "Level " +:+ Py.str_of_int n)).
  rewrite (append_if_str _ (λ s, "Use " +:+ s)).
  rewrite (append_if_str _ (λ s, "Holding " +:+ s)).
  rewrite (append_if_int _ (λ _, "High friendship")).
  rewrite (append_if_str _ (λ s, "Knows " +:+ s)).
  rewrite truthy_str_or_empty, (append_if_str _ Py.capitalize).
  rewrite truthy_str_or_empty.
  unfold trigger_clauses. rewrite !omap_id_cons. simpl omap.
  rewrite app_nil_l, <-!app_assoc, app_nil_r.
  match goal with |- context [match ?l with [] => _ | _ :: _ => _ end] =>
    destruct l as [|c cs] eqn:E end; [|done].
  pose proof (append_if_str (ev_trigger_identifier row)
                title_case_identifier []) as Ht.
  unfold title_case_identifier at 1 in Ht. rewrite Ht. simpl.
  by destruct (present_str (ev_trigger_identifier row)).
Qed.

(** ** The shape of a composed view *)

(** A composed view comes from a resolved Form with stat rows and a
    type-matchup computation that returned; its fields are those of the
    record [get_pokemon_data] builds. *)
Lemma get_pokemon_data_Some db identifier v :
  get_pokemon_data db identifier = Ok (Some v) →
  ∃ base tm,
    get_pokemon_basic db identifier = Some base
    ∧ stats_query db (b_id base) ≠ []
    ∧ compute_type_matchups db (types_query db (b_id base)) = Ok tm
    ∧ vm_dex v = b_species_id base
    ∧ vm_stats v
      = (stats_loop (mins_maxs_query db) (stats_query db (b_id base))).1
    ∧ vm_total v
      = (stats_loop (mins_maxs_query db) (stats_query db (b_id base))).2
    ∧ vm_abilities v = ability_entry_of <$> abilities_query db (b_id base)
    ∧ vm_sprite_url v = sprite_url_of (b_id base)
    ∧ vm_moves v = move_entry_of <$> moves_query db (b_id base)
    ∧ vm_flavor_text v = flavor_text_of db (b_species_id base)
    ∧ vm_type_matchups v = tm
    ∧ vm_forms v = forms_of (forms_query db (b_species_id base))
    ∧ vm_nav_prev v = nav_prev_query db (b_species_id base)
    ∧ vm_nav_next v = nav_next_query db (b_species_id base)
    ∧ vm_encounters v = encounters_of (encounters_query db (b_id base)).
Proof.
  unfold get_pokemon_data.
  destruct (get_pokemon_basic db identifier) as [base|]; [|done].
  destruct (stats_query db (b_id base)) as [|r rs] eqn:Hstats; [done|].
  destruct (compute_type_matchups db (types_query db (b_id base)))
    as [tm|e] eqn:Htm; simpl; [|done].
  intros [= <-]. exists base, tm. rewrite Hstats. by repeat split.
Qed.

Lemma get_pokemon_basic_Some db identifier base :
  get_pokemon_basic db identifier = Some base →
  ∃ p psn,
    p ∈ pokemon db ∧ p_identifier p = Py.lower identifier
    ∧ psn ∈ pokemon_species_names db
    ∧ psn_pokemon_species_id psn = p_species_id p
    ∧ psn_local_language_id psn = LANG_EN
    ∧ b_id base = p_id p ∧ b_identifier base = p_identifier p
    ∧ b_species_id base = p_species_id p.
Proof.
  unfold get_pokemon_basic. rewrite fetchone_take_1.
  intros Hhd%head_Some_elem_of.
  apply list_elem_of_bind in Hhd as (p & Hhd & Hp).
  apply list_elem_of_bind in Hhd as (pf & Hhd & _).
  apply list_elem_of_bind in Hhd as (pfn & Hhd & _).
  apply list_elem_of_bind in Hhd as (psn & Hhd & Hpsn).
  apply list_elem_of_filter in Hpsn as [[? ?] ?].
  apply elem_of_where_ in Hhd as [? ->]. by exists p, psn.
Qed.

(** ** Stat percentages *)

Lemma div_cross_mul (a n b d : Z) :
  0 < b → 0 < d → 0 ≤ n → a * d = n * b → a `div` b = n `div` d.
Proof.
  intros Hb Hd Hn Heq.
  assert (0 ≤ a) by nia.
  pose proof (Z.div_mod n d ltac:(lia)) as Hn'.
  pose proof (Z.mod_pos_bound n d Hd) as Hr.
  symmetry. apply Z.div_unique_pos with (r := a - b * (n `div` d)); [|lia].
  set (q := n `div` d) in *. set (r := n `mod` d) in *.
  split; nia.
Qed.

Lemma quot_cross_mul (a n : Z) (b d : positive) :
  a * Z.pos d = n * Z.pos b → a ÷ Z.pos b = n ÷ Z.pos d.
Proof.
  intros Heq. destruct (Z.le_gt_cases 0 n) as [Hn|Hn].
  - assert (0 ≤ a) by nia.
    rewrite !Z.quot_div_nonneg by lia. apply div_cross_mul; lia.
  - assert (a < 0) by nia.
    apply Z.opp_inj. rewrite <-!Z.quot_opp_l by lia.
    rewrite !Z.quot_div_nonneg by lia. apply div_cross_mul; lia.
Qed.

Lemma py_int_Qeq (q : Qc) (n : Z) (d : positive) :
  (q == n # d)%Q → py_int q = n ÷ Z.pos d.
Proof.
  unfold py_int, Qeq. simpl. intros Heq. by apply quot_cross_mul.
Qed.

Lemma stat_percent_truncation (base_val : Z) :
  stat_percent base_val = percent_by_truncation base_val.
Proof.
  unfold stat_percent, percent_by_truncation. simpl (MAX_STAT_VIS =? 0).
  cbv iota. f_equal. f_equal.
  apply (py_int_Qeq _ (base_val * 100) 180).
  unfold Qcdiv, Qcmult, Qcinv, Q2Qc, MAX_STAT_VIS. simpl this.
  rewrite !Qred_correct. unfold Qeq. simpl. lia.
Qed.

Lemma stat_percent_range (base_val : Z) : 5 ≤ stat_percent base_val ≤ 100.
Proof. unfold stat_percent. lia. Qed.

Lemma stats_loop_spec mins_maxs stat_rows :
  stats_loop mins_maxs stat_rows
  = (stat_entry_of mins_maxs <$> stat_rows,
     foldr Z.add 0 (sr_base_stat <$> stat_rows)).
Proof.
  unfold stats_loop.
  enough (∀ stats total,
    foldl (λ '(stats, total) row,
             (stats ++ [stat_entry_of mins_maxs row],
              total + sr_base_stat row)) (stats, total) stat_rows
    = (stats ++ (stat_entry_of mins_maxs <$> stat_rows),
       total + foldr Z.add 0 (sr_base_stat <$> stat_rows))) as ->
    by done.
  induction stat_rows as [|r rs IH]; intros stats total; simpl.
  - by rewrite app_nil_r, Z.add_0_r.
  - by rewrite IH, <-app_assoc, Z.add_assoc.
Qed.

Lemma se_value_stat_entry_of mins_maxs row :
  se_value (stat_entry_of mins_maxs row) = sr_base_stat row.
Proof. unfold stat_entry_of. by destruct (default _ _). Qed.

Lemma se_percent_stat_entry_of mins_maxs row :
  se_percent (stat_entry_of mins_maxs row) = stat_percent (sr_base_stat row).
Proof. unfold stat_entry_of. by destruct (default _ _). Qed.

(** C2, as stated, fails: Pikachu's Attack of 55 is shown at 30 percent,
    while [clamp(round(55 / 180 * 100), 5, 100)] is 31. *)
Lemma stat_percent_is_not_rounded :
  ∃ v, get_pokemon_data Sample.db "pikachu" = Ok (Some v)
       ∧ (λ e, (se_value e, se_percent e)) <$> vm_stats v
         = [(35, 19); (55, 30); (30, 16); (50, 27); (40, 22); (90, 50)]
       ∧ percent_by_rounding 55 = 31.
Proof. eexists. split; [vm_compute; reflexivity|]. by vm_compute. Qed.

(** C2, amended.  In every composed view the [value] of a stat entry is
    the raw base stat of its row, and its [percent] is
    [value / 180 * 100] truncated toward zero (not rounded to nearest),
    then clamped to the range 5 to 100. *)
Theorem stat_entries_value_and_percent db identifier v :
  get_pokemon_data db identifier = Ok (Some v) →
  ∃ base,
    get_pokemon_basic db identifier = Some base
    ∧ se_value <$> vm_stats v = sr_base_stat <$> stats_query db (b_id base)
    ∧ Forall (λ e, se_percent e = percent_by_truncation (se_value e)
                   ∧ 5 ≤ se_percent e ≤ 100) (vm_stats v).
Proof.
  intros (base & tm & Hb & _ & _ & _ & Hstats & _)%get_pokemon_data_Some.
  exists base. split; [done|].
  rewrite Hstats, stats_loop_spec. simpl. split.
  - rewrite <-list_fmap_compose. apply list_fmap_ext.
    intros _ r _. apply se_value_stat_entry_of.
  - apply Forall_fmap, Forall_forall. intros r _. simpl.
    rewrite se_percent_stat_entry_of, se_value_stat_entry_of.
    split; [apply stat_percent_truncation|apply stat_percent_range].
Qed.

Lemma stat_entries_value_and_percent_witness :
  ∃ v, get_pokemon_data Sample.db "pikachu" = Ok (Some v)
       ∧ ∃ base,
           get_pokemon_basic Sample.db "pikachu" = Some base
           ∧ se_value <$> vm_stats v
             = sr_base_stat <$> stats_query Sample.db (b_id base)
           ∧ Forall (λ e, se_percent e = percent_by_truncation (se_value e)
                          ∧ 5 ≤ se_percent e ≤ 100) (vm_stats v).
Proof.
  eexists. split; [vm_compute; reflexivity|].
  apply (stat_entries_value_and_percent Sample.db "pikachu").
  vm_compute; reflexivity.
Defined.

(** ** Sprite reference *)

(** C3, as stated, fails: the sprite of Pikachu (Form 25) is served from
    [/static/sprites/25.png], not from [/sprites/25.png]. *)
Lemma sprite_url_is_not_the_template :
  ∃ v, get_pokemon_data Sample.db "pikachu" = Ok (Some v)
       ∧ b_id <$> get_pokemon_basic Sample.db "pikachu" = Some 25
       ∧ vm_sprite_url v = "/static/sprites/25.png"
       ∧ vm_sprite_url v ≠ sprite_template 25.
Proof.
  eexists. split; [vm_compute; reflexivity|].
  split; [by vm_compute|]. split; [by vm_compute|]. by vm_compute.
Qed.

Lemma static_sprite_path_inj folders file file' :
  static_sprite_path folders file = static_sprite_path folders file' →
  file = file'.
Proof.
  unfold static_sprite_path. intros Heq. simplify_eq/=.
  induction folders as [|folder folders IH]; simpl in *; [done|].
  apply IH. by apply (inj (String.app folder)), (inj (String.app "/")) in Heq.
Qed.

(** C3, amended.  In every composed view [sprite_url] is a local path
    below [/static/sprites/] whose file name is [{form_id}.png] for the
    numeric id of the resolved Form, the row of [pokemon] whose
    identifier is the lower-cased input; and it depends on that id alone:
    any view, of any dataset, composed for a Form with the same id has
    the same [sprite_url]. *)
Theorem sprite_url_static_path db identifier v :
  get_pokemon_data db identifier = Ok (Some v) →
  ∃ p, p ∈ pokemon db
       ∧ p_identifier p = Py.lower identifier
       ∧ b_id <$> get_pokemon_basic db identifier = Some (p_id p)
       ∧ (∃ folders,
            vm_sprite_url v
            = static_sprite_path folders (Py.str_of_int (p_id p) +:+ ".png"))
       ∧ ∀ db' identifier' v',
           get_pokemon_data db' identifier' = Ok (Some v') →
           b_id <$> get_pokemon_basic db' identifier' = Some (p_id p) →
           vm_sprite_url v' = vm_sprite_url v.
Proof.
  intros (base & tm & Hb & _ & _ & _ & _ & _ & _ & Hurl & _)
    %get_pokemon_data_Some.
  destruct (get_pokemon_basic_Some _ _ _ Hb)
    as (p & psn & Hp & Hident & _ & _ & _ & Hid & _).
  exists p. rewrite Hb, Hurl, <-Hid. repeat split; [done..| |].
  - by exists [].
  - intros db' identifier' v'
      (base' & tm' & Hb' & _ & _ & _ & _ & _ & _ & Hurl' & _)
      %get_pokemon_data_Some.
    rewrite Hb', Hurl'. by intros [= ->].
Qed.

Lemma sprite_url_static_path_witness :
  ∃ v, get_pokemon_data Sample.db "deoxys-attack" = Ok (Some v)
       ∧ ∃ p, p ∈ pokemon Sample.db
              ∧ p_identifier p = Py.lower "deoxys-attack"
              ∧ b_id <$> get_pokemon_basic Sample.db "deoxys-attack"
                = Some (p_id p)
              ∧ (∃ folders,
                   vm_sprite_url v
                   = static_sprite_path folders
                       (Py.str_of_int (p_id p) +:+ ".png"))
              ∧ ∀ db' identifier' v',
                  get_pokemon_data db' identifier' = Ok (Some v') →
                  b_id <$> get_pokemon_basic db' identifier' = Some (p_id p) →
                  vm_sprite_url v' = vm_sprite_url v.
Proof.
  eexists. split; [vm_compute; reflexivity|].
  apply (sprite_url_static_path Sample.db "deoxys-attack").
  vm_compute; reflexivity.
Defined.

(** ** Text fields *)

Lemma chars_replace_char old new s :
  chars (Py.replace_char old new s)
  = (λ c, if Ascii.eqb c old then new else c) <$> chars s.
Proof.
  unfold chars. induction s as [|c s IH]; simpl; [done|]. by rewrite IH.
Qed.

Lemma one_line_breaks_blanked raw : breaks_blanked raw (one_line raw).
Proof.
  unfold breaks_blanked, one_line. rewrite !chars_replace_char.
  rewrite <-list_fmap_compose. apply list_fmap_ext. intros _ c _. simpl.
  unfold blank_breaks.
  destruct (Ascii.eqb_spec c Py.LF) as [->|Hlf].
  - by rewrite decide_True by (by left).
  - destruct (Ascii.eqb_spec c Py.FF) as [->|Hff].
    + by rewrite decide_True by (by right).
    + by rewrite decide_False by (by intros [?|?]).
Qed.

Lemma breaks_blanked_no_break raw text :
  breaks_blanked raw text → no_breaks text.
Proof.
  unfold breaks_blanked, no_breaks. intros ->.
  split; intros (c & Hc & _)%list_elem_of_fmap; revert Hc;
    unfold blank_breaks; case_decide as Hd; try done;
    intros <-; apply Hd; auto.
Qed.

(** C10.  In every composed view the species [flavor_text], the
    [flavor_text] of every ability and the [effect] of every move are
    strings: the text of the underlying row, or the empty string when the
    row or the column is absent, with every newline and form feed
    replaced by a space; none of them contains a newline or a form
    feed. *)
Theorem text_fields_have_no_breaks db identifier v :
  get_pokemon_data db identifier = Ok (Some v) →
  ∃ base,
    get_pokemon_basic db identifier = Some base
    ∧ breaks_blanked
        (default "" (flavor_text_query db (b_species_id base)))
        (vm_flavor_text v)
    ∧ Forall2 (λ r e, breaks_blanked (default "" (ar_flavor_text r))
                                     (ae_flavor_text e))
              (abilities_query db (b_id base)) (vm_abilities v)
    ∧ Forall2 (λ r e, breaks_blanked (default "" (mr_short_effect r))
                                     (mv_effect e))
              (moves_query db (b_id base)) (vm_moves v)
    ∧ Forall no_breaks
             (vm_flavor_text v :: (ae_flavor_text <$> vm_abilities v)
                ++ (mv_effect <$> vm_moves v)).
Proof.
  intros (base & tm & Hb & _ & _ & _ & _ & _ & Hab & _ & Hmv & Hft & _)
    %get_pokemon_data_Some.
  exists base. split; [done|].
  assert (Hflavor : breaks_blanked
            (default "" (flavor_text_query db (b_species_id base)))
            (vm_flavor_text v)).
  { rewrite Hft. unfold flavor_text_of.
    destruct (flavor_text_query db (b_species_id base)); simpl;
      [apply one_line_breaks_blanked|done]. }
  assert (Habilities : Forall2
            (λ r e, breaks_blanked (default "" (ar_flavor_text r))
                                   (ae_flavor_text e))
            (abilities_query db (b_id base)) (vm_abilities v)).
  { rewrite Hab. apply Forall2_fmap_r, Forall_Forall2_diag, Forall_forall.
    intros r _. apply one_line_breaks_blanked. }
  assert (Hmoves : Forall2
            (λ r e, breaks_blanked (default "" (mr_short_effect r))
                                   (mv_effect e))
            (moves_query db (b_id base)) (vm_moves v)).
  { rewrite Hmv. apply Forall2_fmap_r, Forall_Forall2_diag, Forall_forall.
    intros r _. apply one_line_breaks_blanked. }
  repeat split; try done.
  apply Forall_cons. split; [by eapply breaks_blanked_no_break|].
  apply Forall_app. split; apply Forall_fmap, Forall_forall; intros e He.
  - apply list_elem_of_lookup in He as [i Hi].
    destruct (Forall2_lookup_r _ _ _ _ _ Habilities Hi) as (r & _ & Hr).
    by eapply breaks_blanked_no_break.
  - apply list_elem_of_lookup in He as [i Hi].
    destruct (Forall2_lookup_r _ _ _ _ _ Hmoves Hi) as (r & _ & Hr).
    by eapply breaks_blanked_no_break.
Qed.

Lemma text_fields_have_no_breaks_witness :
  ∃ v, get_pokemon_data Sample.db "pikachu" = Ok (Some v)
       ∧ Forall no_breaks
                (vm_flavor_text v :: (ae_flavor_text <$> vm_abilities v)
                   ++ (mv_effect <$> vm_moves v)).
Proof.
  eexists. split; [vm_compute; reflexivity|].
  destruct (text_fields_have_no_breaks Sample.db "pikachu" _
              ltac:(vm_compute; reflexivity)) as (_ & _ & _ & _ & _ & H).
  exact H.
Defined.

(** ** Encounters *)

Lemma StronglySorted_take {A} (R : relation A) n l :
  StronglySorted R l → StronglySorted R (take n l).
Proof.
  intros Hl. revert n. induction Hl as [|x l Hl IH Hx]; intros [|n]; simpl;
    try by constructor.
  constructor; [done|]. by apply Forall_take.
Qed.

Lemma sorted_set_sorted (locs : gset string) :
  StronglySorted String.le (sorted_set locs).
Proof.
  exact (StronglySorted_sort_by String.le id (elements locs)).
Qed.

Lemma sorted_set_NoDup (locs : gset string) : NoDup (sorted_set locs).
Proof. apply NoDup_sort_by, NoDup_elements. Qed.

Lemma elem_of_sorted_set (locs : gset string) loc :
  loc ∈ sorted_set locs ↔ loc ∈ locs.
Proof. unfold sorted_set. by rewrite elem_of_sort_by, elem_of_elements. Qed.

Lemma setdefault_add_spec ver loc (m : list (string * gset string)) :
  NoDup m.*1 →
  NoDup (setdefault_add ver loc m).*1
  ∧ (∀ k, k ∈ (setdefault_add ver loc m).*1 ↔ k = ver ∨ k ∈ m.*1)
  ∧ (∀ k s, (k, s) ∈ setdefault_add ver loc m ↔
       (k ≠ ver ∧ (k, s) ∈ m)
       ∨ (k = ver ∧ ((∃ s0, (ver, s0) ∈ m ∧ s = s0 ∪ {[loc]})
                     ∨ (¬ ver ∈ m.*1 ∧ s = {[loc]})))).
Proof.
  induction m as [|[k0 s0] m IH]; simpl; intros Hnd.
  - split; [apply NoDup_singleton|]. split.
    + intros k. rewrite list_elem_of_singleton, elem_of_nil. tauto.
    + intros k s. rewrite list_elem_of_singleton.
      setoid_rewrite elem_of_nil. naive_solver.
  - apply NoDup_cons in Hnd as [Hk0 Hnd].
    destruct (IH Hnd) as (IHnd & IHkeys & IHin). clear IH.
    assert (Hfst : ∀ k s, (k, s) ∈ m → k ∈ m.*1).
    { intros k s Hin. apply list_elem_of_fmap. by exists (k, s). }
    case_decide as Hk; simplify_eq/=.
    + split; [by apply NoDup_cons|]. split.
      * intros k. rewrite !elem_of_cons. tauto.
      * intros k s. rewrite !elem_of_cons.
        setoid_rewrite elem_of_cons. naive_solver.
    + split.
      { apply NoDup_cons. split; [|done]. rewrite IHkeys. tauto. }
      split.
      * intros k. rewrite !elem_of_cons, IHkeys. tauto.
      * intros k s. rewrite !elem_of_cons, IHin.
        setoid_rewrite elem_of_cons. naive_solver.
Qed.

Lemma locations_of_snoc rows r k :
  locations_of (rows ++ [r]) k
  = locations_of rows k ∪ (if decide (r.1 = k) then {[r.2]} else ∅).
Proof.
  unfold locations_of. rewrite filter_app, fmap_app, list_to_set_app_L.
  f_equal. rewrite filter_cons, filter_nil.
  case_decide; simpl; [by rewrite union_empty_r_L|done].
Qed.

Lemma locations_of_absent rows k : ¬ k ∈ rows.*1 → locations_of rows k = ∅.
Proof.
  intros Hk. unfold locations_of.
  assert (filter (λ r : string * string, r.1 = k) rows = []) as ->; [|done].
  induction rows as [|r rows IH]; [done|].
  apply not_elem_of_cons in Hk as [Hne Hk].
  rewrite filter_cons, decide_False by done. by apply IH.
Qed.

(** The dict built from the raw rows has one key per version met, each
    holding the set of the locations met with it. *)
Lemma encounter_map_of_spec rows :
  NoDup (encounter_map_of rows).*1
  ∧ (∀ k, k ∈ (encounter_map_of rows).*1 ↔ k ∈ rows.*1)
  ∧ (∀ k s, (k, s) ∈ encounter_map_of rows ↔
            k ∈ rows.*1 ∧ s = locations_of rows k).
Proof.
  unfold encounter_map_of.
  induction rows as [|r rows IH] using rev_ind.
  - simpl. split; [constructor|]. split; [done|].
    intros k s. rewrite !elem_of_nil. tauto.
  - rewrite foldl_snoc. destruct IH as (IHnd & IHkeys & IHin).
    destruct (setdefault_add_spec r.1 r.2 _ IHnd) as (Hnd & Hkeys & Hin).
    split; [done|]. split.
    + intros k. rewrite Hkeys, IHkeys, fmap_app, elem_of_app.
      simpl. rewrite list_elem_of_singleton. tauto.
    + intros k s. rewrite Hin, fmap_app, elem_of_app, locations_of_snoc.
      simpl. rewrite list_elem_of_singleton, IHkeys.
      setoid_rewrite IHin. split.
      * intros [[Hne [Hk ->]]|[-> Hcase]].
        -- split; [by left|]. rewrite decide_False by done.
           by rewrite union_empty_r_L.
        -- split; [by right|]. rewrite decide_True by done.
           destruct Hcase as [(s0 & [_ ->] & ->)|[Hn ->]]; [done|].
           by rewrite locations_of_absent, union_empty_l_L.
      * intros [Hk ->]. destruct (decide (k = r.1)) as [->|Hne].
        -- right. split; [done|]. rewrite decide_True by done.
           destruct (decide (r.1 ∈ rows.*1)) as [Hr|Hr].
           ++ left. eauto.
           ++ right. split; [done|].
              by rewrite locations_of_absent, union_empty_l_L.
        -- left. split; [done|]. rewrite decide_False by done.
           rewrite union_empty_r_L. split; [|done].
           by destruct Hk as [Hk|Hk].
Qed.

Lemma StronglySorted_keys_sort_by {A K} (le : relation K) `{!RelDecision le}
    `{!Total le, !Transitive le} (key : A → K) (l : list A) :
  StronglySorted le (key <$> sort_by le key l).
Proof.
  apply (StronglySorted_fmap key (key_rel le key) le); [done|].
  by apply StronglySorted_sort_by.
Qed.

Lemma encounters_of_spec rows :
  (∀ e, e ∈ encounters_of rows ↔
        en_version e ∈ rows.*1
        ∧ en_locations e
          = take 5 (sorted_set (locations_of rows (en_version e))))
  ∧ NoDup (en_version <$> encounters_of rows)
  ∧ StronglySorted String.le (en_version <$> encounters_of rows).
Proof.
  destruct (encounter_map_of_spec rows) as (Hnd & Hkeys & Hin).
  unfold encounters_of.
  set (entry := λ '(ver, locs),
         {| en_version := ver; en_locations := take 5 (sorted_set locs) |}).
  assert (Hversions : en_version <$> (entry <$> encounter_map_of rows)
                      = (encounter_map_of rows).*1).
  { rewrite <-list_fmap_compose. apply list_fmap_ext. by intros _ [ver locs] _. }
  split; [|split].
  - intros e. rewrite elem_of_sort_by, list_elem_of_fmap. split.
    + intros ([ver locs] & -> & [Hver ->]%Hin). done.
    + intros [Hver Hlocs].
      exists (en_version e, locations_of rows (en_version e)). split.
      * destruct e as [ver locs]. simpl in *. by rewrite Hlocs.
      * by apply Hin.
  - by rewrite sort_by_Permutation, Hversions.
  - apply StronglySorted_keys_sort_by; apply _.
Qed.

Lemma encounter_locations_spec rows ver :
  let locs := take 5 (sorted_set (locations_of rows ver)) in
  NoDup locs ∧ StronglySorted String.le locs ∧ (length locs ≤ 5)%nat
  ∧ ∀ loc, loc ∈ locs → (ver, loc) ∈ rows.
Proof.
  simpl. split; [|split; [|split]].
  - apply (sublist_NoDup _ (sorted_set (locations_of rows ver)));
      [apply sorted_set_NoDup|apply sublist_take].
  - apply StronglySorted_take, sorted_set_sorted.
  - rewrite length_take. lia.
  - intros loc Hloc%(elem_of_sublist _ _ _)%elem_of_sorted_set;
      [|apply sublist_take].
    unfold locations_of in Hloc.
    apply elem_of_list_to_set, list_elem_of_fmap in Hloc
      as ([ver' loc'] & -> & [Hv Hin]%list_elem_of_filter).
    simpl in *. by subst.
Qed.

(** C7.  In every composed view the encounters list has one entry per
    version met among the Form's raw (version, location) rows; the
    locations of an entry are the first five, in alphabetical order, of
    the distinct locations met with its version, so they are distinct,
    alphabetically sorted and at most five; and the entries are sorted
    alphabetically by version name, each version occurring once. *)
Theorem encounters_grouped_sorted_capped db identifier v :
  get_pokemon_data db identifier = Ok (Some v) →
  ∃ base,
    get_pokemon_basic db identifier = Some base
    ∧ (∀ e, e ∈ vm_encounters v ↔
         en_version e ∈ (encounters_query db (b_id base)).*1
         ∧ en_locations e
           = take 5 (sorted_set (locations_of
                                   (encounters_query db (b_id base))
                                   (en_version e))))
    ∧ Forall (λ e, NoDup (en_locations e)
                   ∧ StronglySorted String.le (en_locations e)
                   ∧ (length (en_locations e) ≤ 5)%nat
                   ∧ ∀ loc, loc ∈ en_locations e →
                       (en_version e, loc) ∈ encounters_query db (b_id base))
             (vm_encounters v)
    ∧ NoDup (en_version <$> vm_encounters v)
    ∧ StronglySorted String.le (en_version <$> vm_encounters v).
Proof.
  intros (base & tm & Hb & Hrest)%get_pokemon_data_Some.
  do 13 destruct Hrest as [_ Hrest]. rename Hrest into Henc.
  exists base. split; [done|]. rewrite Henc.
  destruct (encounters_of_spec (encounters_query db (b_id base)))
    as (Hin & Hnd & Hsorted).
  split; [done|]. split; [|done].
  apply Forall_forall. intros e [_ ->]%Hin.
  apply encounter_locations_spec.
Qed.

Lemma encounters_grouped_sorted_capped_witness :
  ∃ v, get_pokemon_data Sample.db "pikachu" = Ok (Some v)
       ∧ (λ e, (en_version e, length (en_locations e))) <$> vm_encounters v
         = [("Blue", 1%nat); ("HeartGold", 5%nat); ("Red", 2%nat)]
       ∧ NoDup (en_version <$> vm_encounters v)
       ∧ StronglySorted String.le (en_version <$> vm_encounters v).
Proof.
  eexists. split; [vm_compute; reflexivity|]. split; [by vm_compute|].
  destruct (encounters_grouped_sorted_capped Sample.db "pikachu" _
              ltac:(vm_compute; reflexivity)) as (_ & _ & _ & _ & Hnd & Hs).
  exact (conj Hnd Hs).
Defined.

(** ** Moves *)

#[local] Instance level_then_identifier_total : Total level_then_identifier.
Proof.
  intros [l1 i1] [l2 i2]. unfold level_then_identifier. simpl.
  destruct (Z.lt_trichotomy l1 l2) as [?|[->|?]]; [by left; left| |by right; left].
  destruct (total String.le i1 i2); [left|right]; by right.
Qed.

#[local] Instance level_then_identifier_trans :
  Transitive level_then_identifier.
Proof.
  intros [l1 i1] [l2 i2] [l3 i3]. unfold level_then_identifier. simpl.
  intros [?|[-> H12]] [?|[-> H23]]; [left; lia|by left|by left|].
  right. split; [done|]. by etransitivity.
Qed.

Lemma outer_inhabited {B} (matches : list B) : ∃ o, o ∈ outer matches.
Proof.
  destruct matches as [|b bs]; simpl.
  - exists None. by left.
  - exists (Some b). by left.
Qed.

Lemma elem_of_fmap_bind {A B C} (g : C → A) (f : B → list C) l b x :
  b ∈ l → x ∈ g <$> f b → x ∈ g <$> (l ≫= f).
Proof.
  intros Hb (c & -> & Hc)%list_elem_of_fmap.
  apply list_elem_of_fmap_2, list_elem_of_bind. eauto.
Qed.

Lemma elem_of_fmap_bind_outer {A B C} (g : C → A) (f : option B → list C)
    l x :
  (∀ o, x ∈ g <$> f o) → x ∈ g <$> (outer l ≫= f).
Proof.
  intros Hx. destruct (outer_inhabited l) as [o Ho].
  by apply (elem_of_fmap_bind _ _ _ o).
Qed.





(** ** Navigation *)

#[local] Instance flip_Z_le_total : Total (flip Z.le).
Proof. intros x y. unfold flip. lia. Qed.

#[local] Instance flip_Z_le_trans : Transitive (flip Z.le).
Proof. intros x y z. unfold flip. lia. Qed.








(** ** Python floats *)

Lemma round_half_even_spec (q : Qc) :
  (Qc_of_Z (round_half_even q) - half ≤ q
   ≤ Qc_of_Z (round_half_even q) + half)%Qc.
Proof.
  assert (Hk : 2 * round_half_even q * Z.pos (Qden q) - Z.pos (Qden q)
               ≤ 2 * Qnum q
               ≤ 2 * round_half_even q * Z.pos (Qden q) + Z.pos (Qden q)).
  { unfold round_half_even.
    pose proof (Z.div_mod (Qnum q) (Z.pos (Qden q)) ltac:(lia)) as Hdm.
    pose proof (Z.mod_pos_bound (Qnum q) (Z.pos (Qden q)) ltac:(lia)) as Hr.
    set (fl := Qnum q / Z.pos (Qden q)) in *.
    set (r := Qnum q mod Z.pos (Qden q)) in *.
    repeat case_decide; try destruct (Z.even fl); nia. }
  set (k := round_half_even q) in *. clearbody k.
  unfold Qcle, Qcminus, Qcplus, Qcopp, half, Qc_of_Z. simpl this.
  rewrite !Qred_correct.
  destruct q as [[n d] Hq]. simpl in *.
  unfold Qle, Qplus, Qminus, Qopp, Qplus, inject_Z. simpl.
  split; lia.
Qed.

Lemma round_half_even_tie (q : Qc) :
  (q = Qc_of_Z (round_half_even q) + half
   ∨ q = Qc_of_Z (round_half_even q) - half)%Qc →
  Z.even (round_half_even q) = true.
Proof.
  intros Htie.
  assert (Hn : 2 * Qnum q = (2 * round_half_even q + 1) * Z.pos (Qden q)
               ∨ 2 * Qnum q = (2 * round_half_even q - 1) * Z.pos (Qden q)).
  { generalize dependent (round_half_even q). intros k Htie.
    destruct Htie as [Htie|Htie]; [left|right].
    - assert (Heq : (this q == inject_Z k + (1 # 2))%Q).
      { rewrite Htie. unfold Qcplus, half, Qc_of_Z. simpl this.
        by rewrite !Qred_correct. }
      destruct q as [[n d] Hq].
      unfold Qeq, Qplus, inject_Z in Heq. simpl in *. lia.
    - assert (Heq : (this q == inject_Z k - (1 # 2))%Q).
      { rewrite Htie. unfold Qcminus, Qcplus, Qcopp, half, Qc_of_Z.
        simpl this. by rewrite !Qred_correct. }
      destruct q as [[n d] Hq].
      unfold Qeq, Qminus, Qplus, Qopp, inject_Z in Heq. simpl in *. lia. }
  revert Hn. unfold round_half_even.
  pose proof (Z.div_mod (Qnum q) (Z.pos (Qden q)) ltac:(lia)) as Hdm.
  pose proof (Z.mod_pos_bound (Qnum q) (Z.pos (Qden q)) ltac:(lia)) as Hr.
  set (fl := Qnum q / Z.pos (Qden q)) in *.
  set (r := Qnum q mod Z.pos (Qden q)) in *.
  repeat case_decide.
  - intros [?|?]; nia.
  - intros [?|?]; nia.
  - destruct (Z.even fl) eqn:Hev; [done|].
    intros _. by rewrite Z.even_add, Hev.
Qed.

(** [round(x, 2)] is [x] rounded to two decimal places. *)
Lemma py_round_rounded (x : float) : rounded_to_2_places x (py_round x 2).
Proof.
  destruct x as [s|s| |s m e]; try done.
  exists (round_half_even
            (float_value (SFabs (S754_finite s m e)) * Qc_of_Z 100)).
  split; [apply round_half_even_spec|].
  split; [apply round_half_even_tie|done].
Qed.

(** A product rounds by its binary value: [0.01 * 0.5] lies above
    0.005 and rounds up, [0.5 * 2.03] lies below 1.015 and rounds down,
    and 0.125, a tie, goes to the even digit. *)
Lemma py_round_of_binary_products :
  py_round (float_mul (float_div (float_of_int 1) F_100)
                      (float_div (float_of_int 50) F_100)) 2
  = float_of_decimal false 1 2
  ∧ py_round (float_mul (float_div (float_of_int 50) F_100)
                        (float_div (float_of_int 203) F_100)) 2
    = F_1_01
  ∧ py_round (float_div (float_of_int 125) (float_of_int 1000)) 2
    = float_of_decimal false 12 2.
Proof. repeat split; vm_compute; reflexivity. Qed.

Lemma SFcompare_swap (x y : float) :
  SFcompare y x = CompOpp <$> SFcompare x y.
Proof.
  destruct x as [sx|sx| |sx mx ex], y as [sy|sy| |sy my ey];
    try destruct sx; try destruct sy; try reflexivity; simpl;
    change (Pos.compare_cont Eq my mx) with (my ?= mx)%positive;
    change (Pos.compare_cont Eq mx my) with (mx ?= my)%positive;
    rewrite (Z.compare_antisym ex ey), (Pos.compare_antisym mx my);
    destruct (ex ?= ey); simpl; try reflexivity;
    by destruct (mx ?= my)%positive.
Qed.

Lemma float_lt_not_nan (x y : float) :
  float_lt x y → x ≠ S754_nan ∧ y ≠ S754_nan.
Proof.
  unfold float_lt, SFltb. intros Hlt.
  split; intros ->; [done|]. by destruct x.
Qed.

(** Away from NaN, the test of [list.sort] is [<=]. *)
Lemma float_ngt_le (x y : float) :
  x ≠ S754_nan → y ≠ S754_nan → float_ngt x y → float_le x y.
Proof.
  unfold float_ngt, float_le, SFltb, SFleb. intros Hx Hy.
  rewrite SFcompare_swap.
  destruct (SFcompare x y) as [[]|] eqn:Hc; simpl; try done.
  destruct x, y; try done; simpl in Hc;
    repeat match type of Hc with
           | context [if ?b then _ else _] => destruct b
           end;
    done.
Qed.

#[local] Instance float_ngt_total : Total float_ngt.
Proof.
  intros x y. unfold float_ngt, SFltb. rewrite (SFcompare_swap x y).
  destruct (SFcompare x y) as [[]|]; simpl; auto.
Qed.

#[local] Instance flip_float_ngt_total : Total (flip float_ngt).
Proof. intros x y. unfold flip. destruct (total float_ngt x y); auto. Qed.

Ltac compare_cases :=
  repeat match goal with
  | |- context [Pos.compare_cont Eq ?a ?b] =>
      change (Pos.compare_cont Eq a b) with (a ?= b)%positive
  end;
  repeat match goal with
  | |- context [(?a ?= ?b)%Z] => destruct (Z.compare_spec a b)
  | |- context [(?a ?= ?b)%positive] => destruct (Pos.compare_spec a b)
  end; simpl; try done; try lia.

#[local] Instance float_le_trans : Transitive float_le.
Proof.
  intros x y z. unfold float_le, SFleb.
  destruct x as [sx|sx| |sx mx ex], y as [sy|sy| |sy my ey],
           z as [sz|sz| |sz mz ez];
    try destruct sx; try destruct sy; try destruct sz; simpl; try done;
    compare_cases.
Qed.

#[local] Instance flip_float_le_trans : Transitive (flip float_le).
Proof. intros x y z ??. unfold flip in *. by etransitivity. Qed.

#[local] Instance float_lt_trans : Transitive float_lt.
Proof.
  intros x y z. unfold float_lt, SFltb.
  destruct x as [sx|sx| |sx mx ex], y as [sy|sy| |sy my ey],
           z as [sz|sz| |sz mz ez];
    try destruct sx; try destruct sy; try destruct sz; simpl; try done;
    compare_cases.
Qed.

(** The three tests of the classification exclude one another. *)
Lemma above_band_not_zero (m : float) :
  float_lt F_1_01 m → ¬ float_eq m F_0.
Proof.
  intros Hlt Heq. destruct m as [s|s| |s mm e].
  - by vm_compute in Hlt.
  - destruct s; by vm_compute in Heq.
  - by vm_compute in Heq.
  - destruct s; by vm_compute in Heq.
Qed.

Lemma bands_disjoint (m : float) :
  float_lt F_1_01 m → float_lt m F_0_99 → False.
Proof.
  intros H1 H2. pose proof (transitivity H1 H2) as Hlt.
  by vm_compute in Hlt.
Qed.

(** A list sorted on keys among which the test of the sort implies an
    order is ordered by it. *)
Lemma StronglySorted_keys_sort_by_on {A K} (le le' : relation K)
    `{!RelDecision le, !Total le, !Transitive le'} (P : K → Prop)
    (key : A → K) (l : list A) :
  (∀ a b, P a → P b → le a b → le' a b) →
  Forall (λ x, P (key x)) l →
  StronglySorted le' (key <$> sort_by le key l).
Proof.
  intros Himpl HP.
  apply (StronglySorted_fmap key (key_rel le' key) le'); [done|].
  apply Sorted_StronglySorted.
  { intros x y z. unfold key_rel. apply transitivity. }
  assert (HP' : Forall (λ x, P (key x)) (sort_by le key l))
    by (by rewrite sort_by_Permutation).
  pose proof (Sorted_sort_by le key l) as Hs.
  induction Hs as [|x s Hs IH Hhd]; [constructor|].
  apply Forall_cons in HP' as [Hx HP'].
  constructor; [by apply IH|].
  destruct Hhd as [|y s' Hxy]; constructor.
  apply Forall_cons in HP' as [Hy _]. by apply Himpl.
Qed.

(** ** Type matchups *)

Lemma initial_factors_lookup attack_types k :
  initial_factors attack_types !! k
  = if decide (k ∈ tr_id <$> attack_types) then Some F_1_0 else None.
Proof.
  unfold initial_factors.
  enough (∀ m : gmap Z float,
    foldl (λ factors row, <[tr_id row := F_1_0]> factors) m attack_types !! k
    = if decide (k ∈ tr_id <$> attack_types) then Some F_1_0 else m !! k)
    as -> by done.
  induction attack_types as [|row rows IH]; intros m.
  - done.
  - rewrite fmap_cons. simpl foldl. rewrite IH. clear IH.
    destruct (decide (k ∈ tr_id <$> rows)) as [Hin|Hin].
    + by rewrite decide_True by (by right).
    + destruct (decide (k = tr_id row)) as [->|Hne].
      * rewrite lookup_insert_eq. by rewrite decide_True by (by left).
      * rewrite lookup_insert_ne by done.
        by rewrite decide_False by (by intros [?|?]%elem_of_cons).
Qed.

(** What the efficacy rows contribute to the factor of an attacking
    type: its own rows, multiplied in one after the other. *)
Lemma scale_factors_Ok factors rows factors' :
  scale_factors factors rows = Ok factors' →
  ∀ k, factors' !! k
       = (λ f, foldl float_mul f
                 (factor_of <$> filter (λ r, te_damage_type_id r = k) rows))
         <$> factors !! k.
Proof.
  revert factors. induction rows as [|r rows IH]; intros factors; simpl.
  - intros [= <-] k. by destruct (factors !! k).
  - unfold scale_factor.
    destruct (factors !! te_damage_type_id r) as [f|] eqn:Hf; simpl; [|done].
    intros Hrest k. rewrite (IH _ Hrest k). rewrite filter_cons.
    destruct (decide (te_damage_type_id r = k)) as [<-|Hne].
    + by rewrite lookup_insert_eq, Hf.
    + by rewrite lookup_insert_ne.
Qed.

Lemma scale_factors_returns factors rows :
  (∀ r, r ∈ rows → is_Some (factors !! te_damage_type_id r)) →
  ∃ factors', scale_factors factors rows = Ok factors'.
Proof.
  revert factors. induction rows as [|r rows IH]; intros factors Hdom; simpl.
  - eauto.
  - unfold scale_factor.
    destruct (Hdom r) as [f ->]; [by left|]. simpl.
    apply IH. intros r' Hr'.
    destruct (decide (te_damage_type_id r = te_damage_type_id r')) as [->|Hne].
    + rewrite lookup_insert_eq. eauto.
    + rewrite lookup_insert_ne by done. apply Hdom. by right.
Qed.

Lemma scale_factors_raises factors rows e :
  scale_factors factors rows = Raise e →
  ∃ r, r ∈ rows ∧ e = KeyError (te_damage_type_id r)
       ∧ factors !! te_damage_type_id r = None.
Proof.
  revert factors. induction rows as [|r rows IH]; intros factors; simpl;
    [done|].
  unfold scale_factor.
  destruct (factors !! te_damage_type_id r) as [f|] eqn:Hf; simpl.
  - intros (r' & Hr' & -> & Hnone)%IH. exists r'. split; [by right|].
    split; [done|].
    destruct (decide (te_damage_type_id r = te_damage_type_id r'))
      as [Heq|Hne].
    + rewrite Heq, lookup_insert_eq in Hnone. done.
    + by rewrite lookup_insert_ne in Hnone.
  - intros [= <-]. exists r. split; [by left|done].
Qed.

(** The loop over [attack_types] files each row under the first test its
    multiplier passes: [== 0], then [> 1.01], then [< 0.99]. *)
Lemma classify_foldl factors attack_types acc :
  let mult := mult_of factors in
  foldl (classify factors) acc attack_types
  = {| weak := weak acc ++
         (entry_of factors <$>
            filter (λ row, float_lt F_1_01 (mult row)) attack_types);
       resist := resist acc ++
         (entry_of factors <$>
            filter (λ row, ¬ float_eq (mult row) F_0
                           ∧ float_lt (mult row) F_0_99)
                   attack_types);
       immune := immune acc ++
         (entry_of factors <$>
            filter (λ row, float_eq (mult row) F_0) attack_types) |}.
Proof.
  cbv zeta. revert acc.
  induction attack_types as [|row rows IH]; intros acc.
  - cbn [foldl]. rewrite !filter_nil, !fmap_nil, !app_nil_r. by destruct acc.
  - cbn [foldl]. rewrite IH, !filter_cons. unfold classify.
    set (entry := entry_of factors row).
    assert (Hentry : ∀ l, entry_of factors <$> row :: l
                          = entry :: (entry_of factors <$> l)) by done.
    clearbody entry. generalize (mult_of factors row) as m. intros m.
    destruct (decide (float_eq m F_0)) as [H0|H0]; cbn [weak resist immune].
    + rewrite (decide_False (P := float_lt F_1_01 m))
        by (by intros ?%above_band_not_zero).
      rewrite (decide_False (P := _ ∧ _)) by (by intros [? _]).
      by rewrite Hentry, <-app_assoc.
    + destruct (decide (float_lt F_1_01 m)) as [H1|H1];
        cbn [weak resist immune].
      * rewrite (decide_False (P := _ ∧ _))
          by (intros [_ ?]; by eapply bands_disjoint).
        by rewrite Hentry, <-app_assoc.
      * destruct (decide (float_lt m F_0_99)) as [H2|H2];
          cbn [weak resist immune].
        -- rewrite decide_True by done. by rewrite Hentry, <-app_assoc.
        -- by rewrite decide_False by (by intros [_ ?]).
Qed.

Lemma efficacy_query_nil db : efficacy_query db [] = [].
Proof.
  unfold efficacy_query. induction (type_efficacy db) as [|r rs IH]; [done|].
  rewrite filter_cons, decide_False; [done|apply not_elem_of_nil].
Qed.

Lemma py_round_1 : py_round F_1_0 2 = F_1_0.
Proof. by vm_compute. Qed.

(** Once the factors are scaled, the multiplier the loop reads for an
    attacking type is its rounded product of damage factors. *)
Lemma mult_of_scaled db type_ids factors row :
  scale_factors (initial_factors (attack_types_query db))
                (efficacy_query db type_ids) = Ok factors →
  row ∈ attack_types_query db →
  mult_of factors row = rounded_multiplier db type_ids row.
Proof.
  intros Hf Hrow. unfold mult_of, rounded_multiplier, product_of_factors.
  rewrite (scale_factors_Ok _ _ _ Hf), initial_factors_lookup.
  by rewrite decide_True by (by apply list_elem_of_fmap_2).
Qed.

Lemma elem_of_classified db type_ids factors (P : float → Prop)
    (P_dec : ∀ q, Decision (P q)) e :
  scale_factors (initial_factors (attack_types_query db))
                (efficacy_query db type_ids) = Ok factors →
  e ∈ entry_of factors <$>
        filter (λ row, P (mult_of factors row)) (attack_types_query db) ↔
  ∃ row, row ∈ attack_types_query db
         ∧ e = classified_entry db type_ids row
         ∧ P (rounded_multiplier db type_ids row).
Proof.
  intros Hf. rewrite list_elem_of_fmap. unfold entry_of, classified_entry.
  split.
  - intros (row & -> & [HP Hrow]%list_elem_of_filter). exists row.
    rewrite (mult_of_scaled _ _ _ _ Hf Hrow) in *. done.
  - intros (row & Hrow & -> & HP). exists row.
    rewrite list_elem_of_filter, (mult_of_scaled _ _ _ _ Hf Hrow). done.
Qed.

Lemma rounded_multiplier_no_types db row :
  rounded_multiplier db [] row = F_1_0.
Proof.
  unfold rounded_multiplier, product_of_factors.
  rewrite efficacy_query_nil. apply py_round_1.
Qed.

Lemma compute_type_matchups_nonempty db types_rows :
  types_rows ≠ [] →
  compute_type_matchups db types_rows
  = (factors ←ʳ scale_factors (initial_factors (attack_types_query db))
                              (efficacy_query db (tr_id <$> types_rows));
     let lists := foldl (classify factors) no_matchups
                        (attack_types_query db) in
     Ok {| weak := sort_by (flip float_ngt) me_multiplier (weak lists);
           resist := sort_by float_ngt me_multiplier (resist lists);
           immune := immune lists |}).
Proof. by destruct types_rows. Qed.

(** C1.  For every list of defending types, when the computation
    returns, an attacking type is filed by its product of damage factors
    rounded to two decimal places, under the first test that holds: in
    [immune] exactly when the rounded multiplier equals 0, in [weak]
    exactly when it is above 1.01, in [resist] exactly when it is below
    0.99 (and not 0), and in no list otherwise; so no entry is in two of
    the three lists.  The product and the tests are those of binary64
    arithmetic, and the rounded multiplier is the double written [k/100]
    for the integer [k] nearest to 100 times the product (the even one on
    a tie).  The computation returns whenever every attacking type of
    the efficacy rows read has a name in the configured language. *)
Theorem type_matchups_classification db types_rows :
  let type_ids := tr_id <$> types_rows in
  let mult := rounded_multiplier db type_ids in
  let entry := classified_entry db type_ids in
  (∀ tm,
     compute_type_matchups db types_rows = Ok tm →
     (∀ e, e ∈ immune tm ↔
           ∃ row, row ∈ attack_types_query db ∧ e = entry row
                  ∧ float_eq (mult row) F_0)
     ∧ (∀ e, e ∈ weak tm ↔
             ∃ row, row ∈ attack_types_query db ∧ e = entry row
                    ∧ float_lt F_1_01 (mult row))
     ∧ (∀ e, e ∈ resist tm ↔
             ∃ row, row ∈ attack_types_query db ∧ e = entry row
                    ∧ ¬ float_eq (mult row) F_0
                    ∧ float_lt (mult row) F_0_99)
     ∧ (∀ e, ¬ (e ∈ weak tm ∧ e ∈ resist tm)
             ∧ ¬ (e ∈ weak tm ∧ e ∈ immune tm)
             ∧ ¬ (e ∈ resist tm ∧ e ∈ immune tm)))
  ∧ (∀ row,
       rounded_to_2_places (product_of_factors db type_ids (tr_id row))
                           (mult row))
  ∧ ((∀ r, r ∈ efficacy_query db type_ids →
           te_damage_type_id r ∈ tr_id <$> attack_types_query db) →
     ∃ tm, compute_type_matchups db types_rows = Ok tm).
Proof.
  intros type_ids mult entry. split; [|split].
  - intros tm Htm.
    assert (Hlists :
      (∀ e, e ∈ immune tm ↔
            ∃ row, row ∈ attack_types_query db ∧ e = entry row
                   ∧ float_eq (mult row) F_0)
      ∧ (∀ e, e ∈ weak tm ↔
              ∃ row, row ∈ attack_types_query db ∧ e = entry row
                     ∧ float_lt F_1_01 (mult row))
      ∧ (∀ e, e ∈ resist tm ↔
              ∃ row, row ∈ attack_types_query db ∧ e = entry row
                     ∧ ¬ float_eq (mult row) F_0
                     ∧ float_lt (mult row) F_0_99)).
    { destruct (decide (types_rows = [])) as [->|Hne].
      - injection Htm as <-. subst mult entry type_ids. simpl.
        repeat split; try by intros ?%elem_of_nil.
        + intros (row & _ & _ & Hm).
          rewrite rounded_multiplier_no_types in Hm. by vm_compute in Hm.
        + intros (row & _ & _ & Hm).
          rewrite rounded_multiplier_no_types in Hm. by vm_compute in Hm.
        + intros (row & _ & _ & _ & Hm).
          rewrite rounded_multiplier_no_types in Hm. by vm_compute in Hm.
      - rewrite compute_type_matchups_nonempty in Htm by done.
        fold type_ids in Htm.
        destruct (scale_factors _ _) as [factors|] eqn:Hf; simpl in Htm;
          [|done].
        injection Htm as <-. simpl. rewrite classify_foldl. simpl.
        split; [|split]; intros e.
        + exact (elem_of_classified db type_ids factors
                   (λ q, float_eq q F_0) (λ q, _) e Hf).
        + rewrite elem_of_sort_by.
          exact (elem_of_classified db type_ids factors
                   (λ q, float_lt F_1_01 q) (λ q, _) e Hf).
        + rewrite elem_of_sort_by.
          exact (elem_of_classified db type_ids factors
                   (λ q, ¬ float_eq q F_0 ∧ float_lt q F_0_99)
                   (λ q, _) e Hf). }
    destruct Hlists as (Himmune & Hweak & Hresist).
    repeat split; try (by apply Himmune || by apply Hweak || by apply Hresist).
    + intros [(r1 & _ & -> & H1)%Hweak (r2 & _ & Heq & _ & H2)%Hresist].
      apply (f_equal me_multiplier) in Heq. subst mult. simpl in *.
      rewrite Heq in H1. by eapply bands_disjoint.
    + intros [(r1 & _ & -> & H1)%Hweak (r2 & _ & Heq & H2)%Himmune].
      apply (f_equal me_multiplier) in Heq. subst mult. simpl in *.
      rewrite Heq in H1. by eapply above_band_not_zero.
    + intros [(r1 & _ & -> & H1 & _)%Hresist (r2 & _ & Heq & H2)%Himmune].
      apply (f_equal me_multiplier) in Heq. subst mult. simpl in *.
      rewrite Heq in H1. done.
  - intros row. apply py_round_rounded.
  - intros Hnamed. destruct (decide (types_rows = [])) as [->|Hne]; [by eexists|].
    rewrite compute_type_matchups_nonempty by done. fold type_ids.
    destruct (scale_factors_returns
                (initial_factors (attack_types_query db))
                (efficacy_query db type_ids)) as [factors ->]; [|simpl; eauto].
    intros r Hr. rewrite initial_factors_lookup.
    rewrite decide_True by (by apply Hnamed). eauto.
Qed.

Lemma type_matchups_classification_witness :
  ∃ tm,
    compute_type_matchups Sample.db (types_query Sample.db 94) = Ok tm
    ∧ tr_identifier <$> types_query Sample.db 94 = ["ghost"; "poison"]
    ∧ me_identifier <$> weak tm = ["ground"; "ghost"; "psychic"; "dark"]
    ∧ me_identifier <$> resist tm = ["poison"; "bug"]
    ∧ me_identifier <$> immune tm = ["normal"; "fighting"]
    ∧ ∀ e, ¬ (e ∈ weak tm ∧ e ∈ resist tm)
           ∧ ¬ (e ∈ weak tm ∧ e ∈ immune tm)
           ∧ ¬ (e ∈ resist tm ∧ e ∈ immune tm).
Proof.
  eexists. split; [vm_compute; reflexivity|].
  do 4 (split; [by vm_compute|]).
  destruct (type_matchups_classification Sample.db
              (types_query Sample.db 94)) as [Hlists _].
  destruct (Hlists _ ltac:(vm_compute; reflexivity)) as (_ & _ & _ & Hdisj).
  exact Hdisj.
Defined.

(** ** Sibling forms *)

(** C9, the code at the failing input.  Unown is a Species with a single
    Form that has two rows in [pokemon_forms]: the forms list is not
    empty but lists that Form twice.  For Deoxys, with two Forms of one
    [pokemon_forms] row each, the list is the two Forms, and for Pikachu,
    with one, it is empty. *)
Lemma forms_repeat_a_single_form :
  ∃ v, get_pokemon_data Sample.db "unown" = Ok (Some v)
       ∧ p_identifier <$>
           filter (λ p, p_species_id p = vm_dex v) (pokemon Sample.db)
         = ["unown"]
       ∧ fe_identifier <$> vm_forms v = ["unown"; "unown"].
Proof.
  eexists. split; [vm_compute; reflexivity|]. split; by vm_compute.
Qed.

Lemma forms_of_deoxys_and_pikachu :
  ∃ v v',
    get_pokemon_data Sample.db "deoxys-attack" = Ok (Some v)
    ∧ get_pokemon_data Sample.db "pikachu" = Ok (Some v')
    ∧ vm_forms v
      = [ {| fe_identifier := "deoxys-normal";
             fe_name := "Deoxys Normal Forme"; fe_is_default := true |};
          {| fe_identifier := "deoxys-attack";
             fe_name := "Deoxys Attack Forme"; fe_is_default := false |} ]
    ∧ vm_forms v' = [].
Proof.
  eexists _, _. split; [vm_compute; reflexivity|].
  split; [vm_compute; reflexivity|]. split; by vm_compute.
Qed.

(** ** Not found, and missing optional data *)

Lemma get_pokemon_basic_no_form db identifier :
  (∀ p, p ∈ pokemon db → p_identifier p ≠ Py.lower identifier) →
  get_pokemon_basic db identifier = None.
Proof.
  intros Hnone. destruct (get_pokemon_basic db identifier) as [base|] eqn:Hb;
    [|done].
  apply get_pokemon_basic_Some in Hb as (p & _ & Hp & Hid & _).
  by destruct (Hnone p Hp).
Qed.

Lemma stats_query_no_rows db pokemon_id :
  (∀ r, r ∈ pokemon_stats db → pst_pokemon_id r ≠ pokemon_id) →
  stats_query db pokemon_id = [].
Proof.
  intros Hnone. unfold stats_query.
  match goal with |- sort_by _ _ ?l = _ => assert (l = []) as -> end; [|done].
  apply elem_of_nil_inv. intros row Hrow.
  apply list_elem_of_bind in Hrow as (ps & Hrow & Hps).
  apply list_elem_of_bind in Hrow as (s & Hrow & _).
  apply list_elem_of_bind in Hrow as (sn & Hrow & _).
  apply elem_of_where_ in Hrow as [Hid _]. by destruct (Hnone ps Hps).
Qed.

(** C4, as stated, fails: [missingno] is a Form row matching the
    identifier and it has stat rows, yet no view is composed, because its
    Species has no English name and the base query joins on one. *)
Lemma not_found_despite_form_and_stats :
  (∃ p, p ∈ pokemon Sample.db
        ∧ p_identifier p = Py.lower "MissingNo"
        ∧ length (filter (λ r, pst_pokemon_id r = p_id p)
                         (pokemon_stats Sample.db)) = 6%nat)
  ∧ get_pokemon_data Sample.db "MissingNo" = Ok None.
Proof.
  split; [|by vm_compute].
  exists (Build_pokemon_row 9001 "missingno" 9001 1).
  split; [apply list_elem_of_In; vm_compute; tauto|]. split; by vm_compute.
Qed.

(** The type-matchup step faults on Eevee: an efficacy row against its
    type comes from an attacking type without an English name. *)
Lemma type_matchups_key_error_eevee :
  get_pokemon_data Sample.db "eevee" = Raise (KeyError 10002).
Proof. by vm_compute. Qed.

(** C4, amended.  For every input identifier: when the base query finds
    no row (as when no Form has the lower-cased identifier, and also when
    the Form's Species has no name in the configured language), or the
    stats query of the resolved Form is empty (as when the Form has no
    stat rows), the composer returns [None] and raises nothing.
    Otherwise, whenever the type-matchup step returns, composition
    succeeds whatever optional data is missing: without a flavor-text
    row [flavor_text] is the empty string; without a Species row
    [growth_rate], [capture_rate], [base_happiness], [generation] and
    [region] are null and there are no evolution edges; and with a
    Species row but no growth rate or no generation the corresponding
    fields are null. *)
Theorem get_pokemon_data_outcome db identifier :
  (get_pokemon_basic db identifier = None →
   get_pokemon_data db identifier = Ok None)
  ∧ ((∀ p, p ∈ pokemon db → p_identifier p ≠ Py.lower identifier) →
     get_pokemon_data db identifier = Ok None)
  ∧ (∀ base,
       get_pokemon_basic db identifier = Some base →
       (stats_query db (b_id base) = []
        ∨ ∀ r, r ∈ pokemon_stats db → pst_pokemon_id r ≠ b_id base) →
       get_pokemon_data db identifier = Ok None)
  ∧ (∀ base tm,
       get_pokemon_basic db identifier = Some base →
       stats_query db (b_id base) ≠ [] →
       compute_type_matchups db (types_query db (b_id base)) = Ok tm →
       ∃ v,
         get_pokemon_data db identifier = Ok (Some v)
         ∧ (flavor_text_query db (b_species_id base) = None →
            vm_flavor_text v = "")
         ∧ (species_query db (b_species_id base) = None →
            vm_growth_rate v = None ∧ vm_capture_rate v = None
            ∧ vm_base_happiness v = None ∧ vm_generation v = None
            ∧ vm_region v = None ∧ vm_evolutions v = [])
         ∧ (∀ srow,
              species_query db (b_species_id base) = Some srow →
              vm_capture_rate v = ps_capture_rate srow
              ∧ vm_base_happiness v = ps_base_happiness srow
              ∧ (ps_growth_rate_id srow = None → vm_growth_rate v = None)
              ∧ (ps_generation_id srow = None →
                 vm_generation v = None ∧ vm_region v = None)
              ∧ (ps_evolution_chain_id srow = None → vm_evolutions v = []))).
Proof.
  assert (Hnone : get_pokemon_basic db identifier = None →
                  get_pokemon_data db identifier = Ok None).
  { unfold get_pokemon_data. by intros ->. }
  split; [done|]. split; [|split].
  - intros Hno. by apply Hnone, get_pokemon_basic_no_form.
  - intros base Hb Hstats. unfold get_pokemon_data. rewrite Hb.
    assert (stats_query db (b_id base) = []) as ->; [|done].
    destruct Hstats as [?|Hno]; [done|by apply stats_query_no_rows].
  - intros base tm Hb Hstats Htm. unfold get_pokemon_data. rewrite Hb.
    destruct (stats_query db (b_id base)) as [|r rs] eqn:Hrows; [done|].
    rewrite Htm. simpl. eexists. split; [done|]. simpl.
    unfold flavor_text_of, species_info_of, evolution_edges_of.
    split; [by intros ->|]. split.
    + by intros ->.
    + intros srow ->. simpl. split; [done|]. split; [done|].
      split; [by intros ->|]. split; [by intros ->|by intros ->].
Qed.

Lemma get_pokemon_data_outcome_witness :
  get_pokemon_data Sample.db "qwertyzzz" = Ok None
  ∧ ∃ v, get_pokemon_data Sample.db "unown" = Ok (Some v)
         ∧ vm_flavor_text v = "".
Proof.
  destruct (get_pokemon_data_outcome Sample.db "qwertyzzz")
    as (_ & Hno_form & _).
  split.
  { apply Hno_form. intros p Hp%list_elem_of_In.
    vm_compute in Hp. intuition (subst; discriminate). }
  destruct (get_pokemon_data_outcome Sample.db "unown")
    as (_ & _ & _ & Hview).
  edestruct Hview as (v & Hv & Hflavor & _).
  { vm_compute; reflexivity. }
  { by vm_compute. }
  { vm_compute; reflexivity. }
  exists v. split; [done|]. apply Hflavor. by vm_compute.
Defined.

(** * Further properties of [app.py] *)

(** The remaining fields of a composed view. *)
Lemma get_pokemon_data_Some_fields db identifier v :
  get_pokemon_data db identifier = Ok (Some v) →
  ∃ base,
    get_pokemon_basic db identifier = Some base
    ∧ vm_identifier v = b_identifier base
    ∧ vm_display_name v = b_display_name base
    ∧ vm_dex v = b_species_id base
    ∧ vm_types v
      = (λ t, {| tye_identifier := tr_identifier t; tye_name := tr_name t |})
          <$> types_query db (b_id base)
    ∧ vm_evolutions v
      = evolution_edges_of db
          (si_evo_chain_id (species_info_of db (b_species_id base)))
    ∧ vm_egg_groups v = egg_groups_query db (b_species_id base)
    ∧ vm_growth_rate v
      = si_growth_rate_name (species_info_of db (b_species_id base))
    ∧ vm_generation v
      = si_generation_name (species_info_of db (b_species_id base))
    ∧ vm_region v
      = si_region_name (species_info_of db (b_species_id base)).
Proof.
  unfold get_pokemon_data.
  destruct (get_pokemon_basic db identifier) as [base|]; [|done].
  destruct (stats_query db (b_id base)) as [|r rs]; [done|].
  destruct (compute_type_matchups db (types_query db (b_id base)))
    as [tm|e]; simpl; [|done].
  intros [= <-]. exists base. by repeat split.
Qed.


(** ** Letter case of the identifier *)

Lemma to_lower_idempotent c : Py.to_lower (Py.to_lower c) = Py.to_lower c.
Proof. by destruct c as [[] [] [] [] [] [] [] []]. Qed.

Lemma lower_idempotent s : Py.lower (Py.lower s) = Py.lower s.
Proof.
  induction s as [|c s IH]; simpl; [done|].
  by rewrite to_lower_idempotent, IH.
Qed.

Lemma get_pokemon_data_lower db identifier :
  get_pokemon_data db (Py.lower identifier) = get_pokemon_data db identifier.
Proof.
  unfold get_pokemon_data, get_pokemon_basic. by rewrite lower_idempotent.
Qed.

(** The detail page does not depend on the letter case of the identifier
    in the URL: two identifiers with the same lower-case form give the
    same response, and the data shown is the view composed for the
    identifier as given. *)
Theorem pokemon_detail_ignores_case db identifier identifier' :
  Py.lower identifier = Py.lower identifier' →
  pokemon_detail db identifier = pokemon_detail db identifier'
  ∧ pokemon_detail db identifier
    = (data ←ʳ get_pokemon_data db identifier;
       Ok (RenderIndex data (Py.lower identifier))).
Proof.
  intros Heq. unfold pokemon_detail. rewrite <-Heq.
  by rewrite get_pokemon_data_lower.
Qed.

Lemma vm_identifier_lowered db identifier v :
  get_pokemon_data db identifier = Ok (Some v) →
  vm_identifier v = Py.lower identifier.
Proof.
  intros (base & Hb & -> & _)%get_pokemon_data_Some_fields.
  by apply get_pokemon_basic_Some in Hb
    as (p & psn & _ & <- & _ & _ & _ & _ & -> & _).
Qed.

(** The [identifier] of a composed view is the lower-cased input, the
    slug of a Form row of the view's Species. *)
Theorem view_identifier_is_lowered_input db identifier v :
  get_pokemon_data db identifier = Ok (Some v) →
  vm_identifier v = Py.lower identifier
  ∧ ∃ p, p ∈ pokemon db ∧ p_identifier p = vm_identifier v
         ∧ p_species_id p = vm_dex v.
Proof.
  intros (base & Hb & -> & _ & -> & _)%get_pokemon_data_Some_fields.
  apply get_pokemon_basic_Some in Hb
    as (p & psn & Hp & Hid & _ & _ & _ & _ & Hbid & Hsp).
  rewrite Hbid, Hsp. split; [done|]. by exists p.
Qed.

(** ** Stat entries: order, total and dex-wide bounds *)

(** [mins_maxs] maps a stat id to the least and greatest base stat among
    all the rows of [pokemon_stats] with that id. *)
Lemma mins_maxs_query_spec db stat_id :
  match mins_maxs_query db !! stat_id with
  | Some (lo, hi) =>
      (∀ r, r ∈ pokemon_stats db → pst_stat_id r = stat_id →
            lo ≤ pst_base_stat r ≤ hi)
      ∧ (∃ r, r ∈ pokemon_stats db ∧ pst_stat_id r = stat_id
              ∧ pst_base_stat r = lo)
      ∧ (∃ r, r ∈ pokemon_stats db ∧ pst_stat_id r = stat_id
              ∧ pst_base_stat r = hi)
  | None => ∀ r, r ∈ pokemon_stats db → pst_stat_id r ≠ stat_id
  end.
Proof.
  unfold mins_maxs_query.
  induction (pokemon_stats db) as [|r rows IH] using rev_ind.
  - simpl. rewrite lookup_empty. by intros r ?%elem_of_nil.
  - rewrite foldl_snoc. cbv zeta.
    set (groups := foldl _ ∅ rows) in *.
    destruct (decide (pst_stat_id r = stat_id)) as [<-|Hne].
    + rewrite lookup_insert_eq.
      destruct (groups !! pst_stat_id r) as [[lo hi]|].
      * destruct IH as (Hall & (rlo & Hrlo & Hlo_id & Hlo)
                        & (rhi & Hrhi & Hhi_id & Hhi)).
        split; [|split].
        -- intros r' Hr' Hid. apply elem_of_app in Hr' as [Hr'|Hr'].
           ++ specialize (Hall r' Hr' Hid). lia.
           ++ apply list_elem_of_singleton in Hr' as ->. lia.
        -- destruct (Z.min_spec lo (pst_base_stat r)) as [[_ ->]|[_ ->]].
           ++ exists rlo. rewrite elem_of_app. auto.
           ++ exists r. rewrite elem_of_app, list_elem_of_singleton. auto.
        -- destruct (Z.max_spec hi (pst_base_stat r)) as [[_ ->]|[_ ->]].
           ++ exists r. rewrite elem_of_app, list_elem_of_singleton. auto.
           ++ exists rhi. rewrite elem_of_app. auto.
      * split; [|split].
        -- intros r' Hr' Hid. apply elem_of_app in Hr' as [Hr'|Hr'].
           ++ by destruct (IH r' Hr').
           ++ apply list_elem_of_singleton in Hr' as ->. lia.
        -- exists r. rewrite elem_of_app, list_elem_of_singleton. auto.
        -- exists r. rewrite elem_of_app, list_elem_of_singleton. auto.
    + rewrite lookup_insert_ne by done.
      destruct (groups !! stat_id) as [[lo hi]|].
      * destruct IH as (Hall & (rlo & Hrlo & Hlo_id & Hlo)
                        & (rhi & Hrhi & Hhi_id & Hhi)).
        split; [|split].
        -- intros r' Hr' Hid. apply elem_of_app in Hr' as [Hr'|Hr'].
           ++ by apply Hall.
           ++ by apply list_elem_of_singleton in Hr' as ->.
        -- exists rlo. rewrite elem_of_app. auto.
        -- exists rhi. rewrite elem_of_app. auto.
      * intros r' Hr'. apply elem_of_app in Hr' as [Hr'|Hr'].
        -- by apply IH.
        -- by apply list_elem_of_singleton in Hr' as ->.
Qed.

Lemma elem_of_stats_query db pokemon_id row :
  row ∈ stats_query db pokemon_id →
  ∃ ps, ps ∈ pokemon_stats db ∧ pst_pokemon_id ps = pokemon_id
        ∧ sr_stat_id row = pst_stat_id ps
        ∧ sr_base_stat row = pst_base_stat ps.
Proof.
  unfold stats_query. rewrite elem_of_sort_by. intros Hrow.
  apply list_elem_of_bind in Hrow as (ps & Hrow & Hps).
  apply list_elem_of_bind in Hrow as (s & Hrow & _).
  apply list_elem_of_bind in Hrow as (sn & Hrow & _).
  apply elem_of_where_ in Hrow as [Hid ->]. by exists ps.
Qed.

(** In every composed view the stat entry of a row shows, as [min] and
    [max], the least and greatest base stat any Form has for that stat,
    so that [min <= value <= max]. *)
Theorem stat_entries_within_dex_bounds db identifier v :
  get_pokemon_data db identifier = Ok (Some v) →
  Forall (λ e,
            se_min e ≤ se_value e ≤ se_max e
            ∧ (∀ r, r ∈ pokemon_stats db → pst_stat_id r = se_id e →
                    se_min e ≤ pst_base_stat r ≤ se_max e)
            ∧ (∃ r, r ∈ pokemon_stats db ∧ pst_stat_id r = se_id e
                    ∧ pst_base_stat r = se_min e)
            ∧ (∃ r, r ∈ pokemon_stats db ∧ pst_stat_id r = se_id e
                    ∧ pst_base_stat r = se_max e))
         (vm_stats v).
Proof.
  intros (base & tm & _ & _ & _ & _ & Hstats & _)%get_pokemon_data_Some.
  rewrite Hstats, stats_loop_spec. simpl.
  apply Forall_fmap, Forall_forall. intros row Hrow. simpl.
  apply elem_of_stats_query in Hrow as (ps & Hps & _ & Hid & Hval).
  pose proof (mins_maxs_query_spec db (sr_stat_id row)) as Hmm.
  unfold stat_entry_of.
  destruct (mins_maxs_query db !! sr_stat_id row) as [[lo hi]|]; simpl.
  - destruct Hmm as (Hall & Hlo & Hhi). rewrite Hval.
    split; [apply Hall; by rewrite ?Hid|done].
  - destruct (Hmm ps Hps). done.
Qed.

(** In every composed view the stat entries follow the stat rows of the
    Form in ascending stat id, one entry per row, and [total] is the sum
    of their raw values. *)
Theorem stat_entries_order_and_total db identifier v :
  get_pokemon_data db identifier = Ok (Some v) →
  vm_stats v ≠ []
  ∧ StronglySorted Z.le (se_id <$> vm_stats v)
  ∧ vm_total v = foldr Z.add 0 (se_value <$> vm_stats v).
Proof.
  intros (base & tm & _ & Hne & _ & _ & Hstats & Htotal & _)
    %get_pokemon_data_Some.
  rewrite Htotal, Hstats, stats_loop_spec. simpl.
  assert (Hids : se_id <$> (stat_entry_of (mins_maxs_query db) <$>
                             stats_query db (b_id base))
                 = sr_stat_id <$> stats_query db (b_id base)).
  { rewrite <-list_fmap_compose. apply list_fmap_ext. intros _ r _. simpl.
    unfold stat_entry_of. by destruct (default _ _). }
  assert (Hvals : se_value <$> (stat_entry_of (mins_maxs_query db) <$>
                                  stats_query db (b_id base))
                  = sr_base_stat <$> stats_query db (b_id base)).
  { rewrite <-list_fmap_compose. apply list_fmap_ext. intros _ r _.
    apply se_value_stat_entry_of. }
  rewrite Hids, Hvals. split; [|split; [|done]].
  - by destruct (stats_query db (b_id base)).
  - unfold stats_query. apply StronglySorted_keys_sort_by; apply _.
Qed.

(** ** Type matchups: order of the lists, and the missing key *)

(** When the computation returns, [weak] is ordered by multiplier from
    the greatest down and [resist] from the least up. *)
Theorem type_matchups_sorted db types_rows tm :
  compute_type_matchups db types_rows = Ok tm →
  StronglySorted (flip float_le) (me_multiplier <$> weak tm)
  ∧ StronglySorted float_le (me_multiplier <$> resist tm).
Proof.
  intros Htm. destruct (decide (types_rows = [])) as [->|Hne].
  - injection Htm as <-. split; constructor.
  - rewrite compute_type_matchups_nonempty in Htm by done.
    destruct (scale_factors _ _) as [factors|]; simpl in Htm; [|done].
    injection Htm as <-. simpl. rewrite classify_foldl. simpl. split.
    + apply (StronglySorted_keys_sort_by_on _ _ (λ m, m ≠ S754_nan)).
      * intros a b Ha Hb. by apply float_ngt_le.
      * apply Forall_fmap, Forall_forall.
        intros row [Hlt _]%list_elem_of_filter. simpl.
        by apply float_lt_not_nan in Hlt as [_ ?].
    + apply (StronglySorted_keys_sort_by_on _ _ (λ m, m ≠ S754_nan)).
      * intros a b Ha Hb. by apply float_ngt_le.
      * apply Forall_fmap, Forall_forall.
        intros row [[_ Hlt] _]%list_elem_of_filter. simpl.
        by apply float_lt_not_nan in Hlt as [? _].
Qed.

Lemma elem_of_attack_type_ids db k :
  k ∈ tr_id <$> attack_types_query db ↔
  ∃ t tn, t ∈ types db ∧ ty_id t = k ∧ tn ∈ type_names db
          ∧ tn_type_id tn = k ∧ tn_local_language_id tn = LANG_EN.
Proof.
  unfold attack_types_query. rewrite sort_by_Permutation. split.
  - intros (row & -> & Hrow)%list_elem_of_fmap.
    apply list_elem_of_bind in Hrow as (t & Hrow & Ht).
    apply list_elem_of_bind in Hrow
      as (tn & ->%list_elem_of_singleton & [[Hid Hlang] Htn]%list_elem_of_filter).
    exists t, tn. simpl. by rewrite Hid.
  - intros (t & tn & Ht & <- & Htn & Hid & Hlang).
    apply (elem_of_fmap_bind _ _ _ t); [done|].
    apply (elem_of_fmap_bind _ _ _ tn); [by apply list_elem_of_filter|].
    by apply list_elem_of_singleton.
Qed.

Lemma scale_factors_Ok_keys factors rows factors' :
  scale_factors factors rows = Ok factors' →
  ∀ r, r ∈ rows → is_Some (factors !! te_damage_type_id r).
Proof.
  revert factors. induction rows as [|r rows IH]; intros factors; simpl.
  - by intros _ r ?%elem_of_nil.
  - unfold scale_factor.
    destruct (factors !! te_damage_type_id r) as [f|] eqn:Hf; simpl; [|done].
    intros Hrest r' [->|Hr']%elem_of_cons; [by eexists|].
    destruct (IH _ Hrest r' Hr') as [f' Hf'].
    destruct (decide (te_damage_type_id r = te_damage_type_id r'))
      as [Heq|Hne].
    + rewrite <-Heq. by eexists.
    + rewrite lookup_insert_ne in Hf' by done. by eexists.
Qed.

(** The computation raises [KeyError] exactly when some efficacy row
    against one of the defending types comes from an attacking type that
    has no row in [types] with an English name; the key of the error is
    such an attacking type. *)
Theorem type_matchups_key_error db types_rows :
  let unnamed k :=
    ¬ ∃ t tn, t ∈ types db ∧ ty_id t = k ∧ tn ∈ type_names db
              ∧ tn_type_id tn = k ∧ tn_local_language_id tn = LANG_EN in
  let offending r :=
    r ∈ type_efficacy db ∧ te_target_type_id r ∈ tr_id <$> types_rows
    ∧ unnamed (te_damage_type_id r) in
  (∀ e, compute_type_matchups db types_rows = Raise e →
        ∃ r, offending r ∧ e = KeyError (te_damage_type_id r))
  ∧ ((∃ r, offending r) →
     ∃ e, compute_type_matchups db types_rows = Raise e).
Proof.
  intros unnamed offending. split.
  - intros e He. destruct (decide (types_rows = [])) as [->|Hne]; [done|].
    rewrite compute_type_matchups_nonempty in He by done.
    destruct (scale_factors _ _) as [factors|e'] eqn:Hf; simpl in He; [done|].
    injection He as ->.
    apply scale_factors_raises in Hf as (r & Hr & -> & Hnone).
    exists r. split; [|done].
    apply list_elem_of_filter in Hr as [Htarget Hr].
    split; [done|]. split; [done|].
    rewrite initial_factors_lookup in Hnone.
    case_decide as Hin; [done|]. intros Hnamed.
    by apply Hin, elem_of_attack_type_ids.
  - intros (r & Hr & Htarget & Hunnamed).
    destruct (compute_type_matchups db types_rows) as [tm|e] eqn:Htm;
      [|by eexists].
    exfalso. destruct (decide (types_rows = [])) as [->|Hne].
    { by apply elem_of_nil in Htarget. }
    rewrite compute_type_matchups_nonempty in Htm by done.
    destruct (scale_factors _ _) as [factors|] eqn:Hf; simpl in Htm; [|done].
    destruct (scale_factors_Ok_keys _ _ _ Hf r) as [f Hlook].
    { by apply list_elem_of_filter. }
    rewrite initial_factors_lookup in Hlook.
    case_decide as Hin; [|done].
    by apply Hunnamed, elem_of_attack_type_ids.
Qed.

(** ** Type matchups on the factors of the reference data *)

Ltac settle_exact :=
  repeat split;
  first
    [ solve [vm_compute; reflexivity]
    | solve [apply Qc_is_canon; vm_compute; reflexivity]
    | solve [intros H; vm_compute in H; discriminate H]
    | solve [intros H; apply (f_equal this) in H; vm_compute in H;
             discriminate H]
    | solve [intros _; vm_compute; reflexivity]
    | solve [intros _; apply Qc_is_canon; vm_compute; reflexivity] ].

(** When an attacking type has at most two efficacy rows against the
    defending types and their damage factors are among 0, 50, 100 and
    200, the doubles compute exactly: rounding to two places leaves the
    product as it is, the value of the multiplier is the product of the
    factors as fractions of 100, and the tests [== 0], [> 1.01] and
    [< 0.99] hold exactly when that product is 0, above 1 and below
    1. *)
Theorem reference_factors_multiply_exactly db types_rows row :
  let type_ids := tr_id <$> types_rows in
  let rows := filter (λ r, te_damage_type_id r = tr_id row)
                     (efficacy_query db type_ids) in
  let mult := rounded_multiplier db type_ids row in
  (length rows ≤ 2)%nat →
  Forall (λ r, te_damage_factor r ∈ [0; 50; 100; 200]) rows →
  mult = product_of_factors db type_ids (tr_id row)
  ∧ float_value mult = exact_product rows
  ∧ (float_eq mult F_0 ↔ exact_product rows = 0%Qc)
  ∧ (float_lt F_1_01 mult ↔ (1 < exact_product rows)%Qc)
  ∧ (float_lt mult F_0_99 ↔ (exact_product rows < 1)%Qc).
Proof.
  intros type_ids rows mult. subst mult.
  unfold rounded_multiplier, product_of_factors. fold type_ids. fold rows.
  clearbody rows. intros Hlen Hall.
  destruct rows as [|[d1 t1 f1] [|[d2 t2 f2] [|r3 rows]]];
    simpl in Hlen; try lia.
  - settle_exact.
  - apply Forall_cons in Hall as [H1 _]. simpl in H1.
    repeat (apply elem_of_cons in H1 as [->|H1]);
      [..|by apply elem_of_nil in H1]; settle_exact.
  - apply Forall_cons in Hall as [H1 Hall].
    apply Forall_cons in Hall as [H2 _]. simpl in H1, H2.
    repeat (apply elem_of_cons in H1 as [->|H1]);
      [..|by apply elem_of_nil in H1];
      repeat (apply elem_of_cons in H2 as [->|H2]);
      try (by apply elem_of_nil in H2); settle_exact.
Qed.

(** ** Evolution edges *)

Lemma string_app_nonempty s t : s ≠ "" → s +:+ t ≠ "".
Proof. by destruct s. Qed.

Lemma join_nonempty c cs : c ≠ "" → Py.join ", " (c :: cs) ≠ "".
Proof.
  intros Hc. unfold Py.join. simpl. destruct cs; [done|].
  by apply string_app_nonempty.
Qed.

Lemma title_go_nonempty b s : s ≠ "" → Py.title_go b s ≠ "".
Proof. by destruct s. Qed.

Lemma title_case_identifier_nonempty s :
  s ≠ "" → title_case_identifier s ≠ "".
Proof.
  intros Hs. unfold title_case_identifier, Py.title.
  apply title_go_nonempty. by destruct s.
Qed.

Lemma present_str_nonempty o s : present_str o = Some s → s ≠ "".
Proof.
  unfold present_str. destruct o as [s'|]; simpl; [|done].
  case_decide; [done|]. by intros [= <-].
Qed.

Lemma trigger_clauses_nonempty row c :
  c ∈ trigger_clauses row → c ≠ "".
Proof.
  unfold trigger_clauses. rewrite list_elem_of_omap.
  intros (o & Ho & Hc). simpl in Hc.
  repeat (apply elem_of_cons in Ho as [->|Ho]);
    try (by apply elem_of_nil in Ho).
  - by destruct (present_int _); simplify_eq/=.
  - by destruct (present_str _); simplify_eq/=.
  - by destruct (present_str _); simplify_eq/=.
  - by destruct (present_int _); simplify_eq/=.
  - by destruct (present_str _); simplify_eq/=.
  - destruct (present_str _) as [s|] eqn:Hs; simplify_eq/=.
    apply present_str_nonempty in Hs. by destruct s.
Qed.

(** The parts that [describe_evo_step] joins. *)
Lemma describe_evo_step_joined (row : evo_row) :
  describe_evo_step row
  = Py.join ", "
      (match trigger_clauses row with
       | [] => clause_list (title_case_identifier <$>
                              present_str (ev_trigger_identifier row))
       | clauses => clauses
       end).
Proof.
  unfold describe_evo_step. rewrite join_eq_empty. f_equal.
  rewrite (append_if_int _ (λ n, "Level " +:+ Py.str_of_int n)).
  rewrite (append_if_str _ (λ s, "Use " +:+ s)).
  rewrite (append_if_str _ (λ s, "Holding " +:+ s)).
  rewrite (append_if_int _ (λ _, "High friendship")).
  rewrite (append_if_str _ (λ s, "Knows " +:+ s)).
  rewrite truthy_str_or_empty, (append_if_str _ Py.capitalize).
  rewrite truthy_str_or_empty.
  unfold trigger_clauses. rewrite !omap_id_cons. simpl omap.
  rewrite app_nil_l, <-!app_assoc, app_nil_r.
  match goal with |- context [match ?l with [] => _ | _ :: _ => _ end] =>
    destruct l as [|c cs] eqn:E end; [|done].
  pose proof (append_if_str (ev_trigger_identifier row)
                title_case_identifier []) as Ht.
  unfold title_case_identifier at 1 in Ht. by rewrite Ht.
Qed.

(** The condition text is empty exactly when the row has no trigger field
    that is present and no trigger identifier either. *)
Theorem describe_evo_step_empty_iff (row : evo_row) :
  describe_evo_step row = "" ↔
  present_int (ev_minimum_level row) = None
  ∧ present_str (ev_item_name row) = None
  ∧ present_str (ev_held_item_name row) = None
  ∧ present_int (ev_minimum_happiness row) = None
  ∧ present_str (ev_known_move_name row) = None
  ∧ present_str (ev_time_of_day row) = None
  ∧ present_str (ev_trigger_identifier row) = None.
Proof.
  rewrite describe_evo_step_joined.
  destruct (trigger_clauses row) as [|c cs] eqn:Hclauses.
  - assert (Hfields :
      present_int (ev_minimum_level row) = None
      ∧ present_str (ev_item_name row) = None
      ∧ present_str (ev_held_item_name row) = None
      ∧ present_int (ev_minimum_happiness row) = None
      ∧ present_str (ev_known_move_name row) = None
      ∧ present_str (ev_time_of_day row) = None).
    { unfold trigger_clauses in Hclauses.
      destruct (present_int (ev_minimum_level row)); [done|].
      destruct (present_str (ev_item_name row)); [done|].
      destruct (present_str (ev_held_item_name row)); [done|].
      destruct (present_int (ev_minimum_happiness row)); [done|].
      destruct (present_str (ev_known_move_name row)); [done|].
      by destruct (present_str (ev_time_of_day row)). }
    destruct (present_str (ev_trigger_identifier row)) as [t|] eqn:Ht.
    + split; [|by intros (_ & _ & _ & _ & _ & _ & ?)].
      intros Hempty. apply present_str_nonempty in Ht.
      by apply title_case_identifier_nonempty in Ht.
    + split; [|done]. intros _. by destruct Hfields as (? & ? & ? & ? & ? & ?).
  - split.
    + intros Hempty. exfalso. eapply join_nonempty; [|exact Hempty].
      apply (trigger_clauses_nonempty row). rewrite Hclauses. by left.
    + intros (H1 & H2 & H3 & H4 & H5 & H6 & _).
      unfold trigger_clauses in Hclauses.
      by rewrite H1, H2, H3, H4, H5, H6 in Hclauses.
Qed.

Lemma elem_of_evolution_query db chain row :
  row ∈ evolution_query db chain →
  ∃ e to_ps,
    e ∈ pokemon_evolution db ∧ to_ps ∈ pokemon_species db
    ∧ ps_id to_ps = e_evolved_species_id e
    ∧ ps_evolution_chain_id to_ps = Some chain
    ∧ ev_to_species_id row = ps_id to_ps
    ∧ ev_to_identifier row = ps_identifier to_ps
    ∧ match ev_from_species_id row with
      | Some from_id =>
          ps_evolves_from_species_id to_ps = Some from_id
          ∧ ∃ from_ps, from_ps ∈ pokemon_species db
                       ∧ ps_id from_ps = from_id
                       ∧ ev_from_identifier row = Some (ps_identifier from_ps)
      | None =>
          ∀ s, s ∈ pokemon_species db →
               Some (ps_id s) ≠ ps_evolves_from_species_id to_ps
      end.
Proof.
  unfold evolution_query. rewrite elem_of_sort_by. intros Hrow.
  apply list_elem_of_bind in Hrow as (e & Hrow & He).
  apply list_elem_of_bind in Hrow
    as (to_ps & Hrow & [Hto_id Hto]%list_elem_of_filter).
  apply list_elem_of_bind in Hrow as (from_ps & Hrow & Hfrom).
  do 9 (apply list_elem_of_bind in Hrow as (? & Hrow & _)).
  apply elem_of_where_ in Hrow as [Hchain ->]. simpl.
  exists e, to_ps. repeat split; try done.
  apply elem_of_outer in Hfrom as [[Hnone ->]|(s & -> & Hs)]; simpl.
  - intros s Hs Hid. eapply filter_nil_not_elem_of; [exact Hnone|exact Hid|done].
  - apply list_elem_of_filter in Hs as [Hid Hs]. split; [done|]. by exists s.
Qed.

(** In every composed view the evolution edges are ordered by the id of
    the Species evolved into.  Each edge comes from a [pokemon_evolution]
    row whose evolved Species is in the evolution chain of the view's
    Species (a chain id that is neither null nor 0); its [from] side is
    the Species that the evolved one evolves from, and is null exactly
    when no Species row has that id.  A Species without a
    [pokemon_evolution] row, such as the root of a chain, is the target
    of no edge. *)
Theorem evolution_edges_of_the_chain db identifier v :
  get_pokemon_data db identifier = Ok (Some v) →
  StronglySorted Z.le ((sp_species_id ∘ ee_to) <$> vm_evolutions v)
  ∧ ∀ edge, edge ∈ vm_evolutions v →
      ∃ srow chain e to_ps,
        species_query db (vm_dex v) = Some srow
        ∧ ps_evolution_chain_id srow = Some chain ∧ chain ≠ 0
        ∧ e ∈ pokemon_evolution db ∧ to_ps ∈ pokemon_species db
        ∧ ps_id to_ps = e_evolved_species_id e
        ∧ ps_evolution_chain_id to_ps = Some chain
        ∧ sp_species_id (ee_to edge) = ps_id to_ps
        ∧ sp_identifier (ee_to edge) = ps_identifier to_ps
        ∧ match ee_from edge with
          | Some f =>
              ps_evolves_from_species_id to_ps = Some (sp_species_id f)
              ∧ ∃ from_ps, from_ps ∈ pokemon_species db
                           ∧ ps_id from_ps = sp_species_id f
                           ∧ sp_identifier f = Some (ps_identifier from_ps)
          | None =>
              ∀ s, s ∈ pokemon_species db →
                   Some (ps_id s) ≠ ps_evolves_from_species_id to_ps
          end.
Proof.
  intros (base & _ & _ & _ & Hdex & _ & Hevo & _)%get_pokemon_data_Some_fields.
  rewrite Hevo, Hdex. unfold evolution_edges_of, species_info_of.
  destruct (species_query db (b_species_id base)) as [srow|]; simpl;
    [|split; [constructor|by intros ? ?%elem_of_nil]].
  destruct (ps_evolution_chain_id srow) as [chain|] eqn:Hchain; simpl;
    [|split; [constructor|by intros ? ?%elem_of_nil]].
  destruct (Z.eqb_spec chain 0) as [->|Hne]; simpl;
    [split; [constructor|by intros ? ?%elem_of_nil]|].
  split.
  - rewrite <-list_fmap_compose. unfold evolution_query.
    apply (StronglySorted_keys_sort_by Z.le ev_to_species_id).
  - intros edge (row & -> & Hrow)%list_elem_of_fmap.
    apply elem_of_evolution_query in Hrow
      as (e & to_ps & He & Hto & Hid & Hch & Hto_id & Hto_ident & Hfrom).
    exists srow, chain, e, to_ps. repeat split; try done.
    unfold evolution_edge_of. simpl.
    by destruct (ev_from_species_id row).
Qed.

(** ** Sibling forms, beyond the single case *)

Lemma elem_of_forms_query db species_id r :
  r ∈ forms_query db species_id →
  ∃ p, p ∈ pokemon db ∧ p_species_id p = species_id
       ∧ fr_identifier r = p_identifier p
       ∧ fr_is_default r = p_is_default p.
Proof.
  unfold forms_query. intros ([id r'] & -> & Hr)%list_elem_of_fmap.
  apply elem_of_sort_by in Hr.
  apply list_elem_of_bind in Hr as (p & Hr & Hp).
  apply list_elem_of_bind in Hr as (pf & Hr & _).
  apply list_elem_of_bind in Hr as (pfn & Hr & _).
  apply list_elem_of_bind in Hr as (psn & Hr & _).
  apply elem_of_where_ in Hr as [Hsp [= -> ->]]. by exists p.
Qed.

Lemma forms_query_has_form db p psn :
  p ∈ pokemon db →
  psn ∈ pokemon_species_names db →
  psn_pokemon_species_id psn = p_species_id p →
  psn_local_language_id psn = LANG_EN →
  p_identifier p ∈ fr_identifier <$> forms_query db (p_species_id p).
Proof.
  intros Hp Hpsn Hsp Hlang. unfold forms_query.
  rewrite <-list_fmap_compose, sort_by_Permutation.
  apply (elem_of_fmap_bind _ _ _ p); [done|].
  do 2 (apply elem_of_fmap_bind_outer; intros ?).
  apply (elem_of_fmap_bind _ _ _ psn); [by apply list_elem_of_filter|].
  unfold where_. rewrite decide_True by done. by apply list_elem_of_singleton.
Qed.

(** In every composed view the forms list never has exactly one entry:
    it is empty or has at least two.  Every entry is a Form row of the
    view's Species, with that row's slug and default flag; and when the
    list is not empty the Form being viewed is among its slugs. *)
Theorem forms_list_shape db identifier v :
  get_pokemon_data db identifier = Ok (Some v) →
  (vm_forms v = []
   ∨ ((2 ≤ length (vm_forms v))%nat
      ∧ vm_identifier v ∈ fe_identifier <$> vm_forms v))
  ∧ ∀ e, e ∈ vm_forms v →
         ∃ p, p ∈ pokemon db ∧ p_species_id p = vm_dex v
              ∧ fe_identifier e = p_identifier p
              ∧ fe_is_default e = Py.bool_of_int (p_is_default p).
Proof.
  intros Hv.
  pose proof (vm_identifier_lowered _ _ _ Hv) as Hident.
  apply get_pokemon_data_Some in Hv as (base & tm & Hb & Hrest).
  destruct Hrest as (_ & _ & Hdex & Hrest).
  do 7 destruct Hrest as [_ Hrest]. destruct Hrest as [Hforms _].
  apply get_pokemon_basic_Some in Hb
    as (p & psn & Hp & Hid & Hpsn & Hsp & Hlang & _ & _ & Hspecies).
  rewrite Hforms, Hdex, Hspecies, Hident, <-Hid. split.
  - unfold forms_of. case_decide as Hlen; [by left|]. right. split; [lia|].
    rewrite <-list_fmap_compose.
    exact (forms_query_has_form db p psn Hp Hpsn Hsp Hlang).
  - intros e He. unfold forms_of in He.
    case_decide; [by apply elem_of_nil in He|].
    apply list_elem_of_fmap in He as (r & -> & Hr).
    apply elem_of_forms_query in Hr as (p' & Hp' & Hsp' & Hid' & Hdef').
    exists p'. simpl. by rewrite Hid', Hdef'.
Qed.

Lemma insert_by_fmap {A B K} (le : K → K → Prop) `{!RelDecision le}
    (key : B → K) (g : A → B) x l :
  insert_by le key (g x) (g <$> l) = g <$> insert_by le (key ∘ g) x l.
Proof.
  induction l as [|y l IH]; csimpl; [done|].
  case_decide; csimpl; [done|]. by rewrite IH.
Qed.

Lemma sort_by_fmap {A B K} (le : K → K → Prop) `{!RelDecision le}
    (key : B → K) (g : A → B) l :
  sort_by le key (g <$> l) = g <$> sort_by le (key ∘ g) l.
Proof.
  induction l as [|x l IH]; csimpl; [done|].
  by rewrite IH, insert_by_fmap.
Qed.

Lemma bind_all_nil {A B} (f : A → list B) (l : list A) :
  (∀ x, f x = []) → l ≫= f = [].
Proof.
  intros Hf. induction l as [|x l IH]; [done|].
  by rewrite bind_cons, Hf, IH.
Qed.

Lemma outer_at_most_one {B} (matches : list B) :
  (length matches ≤ 1)%nat → ∃ o, outer matches = [o].
Proof.
  destruct matches as [|b [|b' bs]]; simpl; [by eexists..|lia].
Qed.

(** The slugs of the forms query, when the joins do not multiply rows. *)
Lemma forms_query_slugs db species_id :
  (∀ p, p ∈ pokemon db → p_species_id p = species_id →
        (length (filter (λ pf, pf_pokemon_id pf = p_id p)
                        (pokemon_forms db)) ≤ 1)%nat) →
  (∀ pf, pf ∈ pokemon_forms db →
         (length (filter (λ pfn, pfn_pokemon_form_id pfn = pf_id pf
                                 ∧ pfn_local_language_id pfn = LANG_EN)
                         (pokemon_form_names db)) ≤ 1)%nat) →
  length (filter (λ psn, psn_pokemon_species_id psn = species_id
                         ∧ psn_local_language_id psn = LANG_EN)
                 (pokemon_species_names db)) = 1%nat →
  fr_identifier <$> forms_query db species_id
  = p_identifier <$>
      sort_by Z.le p_id (filter (λ p, p_species_id p = species_id)
                                (pokemon db)).
Proof.
  intros Hpf Hpfn Hpsn. unfold forms_query.
  set (g1 := λ x : Z * form_row, (x.1, fr_identifier x.2)).
  set (g2 := λ p : pokemon_row, (p_id p, p_identifier p)).
  match goal with |- _ <$> (_ <$> sort_by _ _ ?C) = _ => set (rows := C) end.
  assert (Hrows : g1 <$> rows
                  = g2 <$> filter (λ p, p_species_id p = species_id)
                                  (pokemon db)).
  { subst rows.
    assert (Hsub : ∀ p, p ∈ pokemon db → p ∈ pokemon db) by done.
    revert Hsub. generalize (pokemon db) at 1 3 4. intros l Hsub.
    induction l as [|p l IH]; [done|].
    rewrite bind_cons, fmap_app, filter_cons, IH
      by (intros; apply Hsub; by right).
    f_equal. clear IH.
    assert (Hp : p ∈ pokemon db) by (apply Hsub; by left).
    destruct (decide (p_species_id p = species_id)) as [Hsp|Hsp].
    - destruct (outer_at_most_one _ (Hpf p Hp Hsp)) as [pf Hpf1].
      rewrite Hpf1. simpl. rewrite app_nil_r.
      assert (∃ pfn, outer (filter
                (λ pfn, Some (pfn_pokemon_form_id pfn) = pf_id <$> pf
                        ∧ pfn_local_language_id pfn = LANG_EN)
                (pokemon_form_names db)) = [pfn]) as [pfn ->].
      { apply outer_at_most_one. destruct pf as [pf|]; simpl.
        - assert (pf ∈ pokemon_forms db) as Hin.
          { assert (Some pf ∈ outer (filter (λ pf, pf_pokemon_id pf = p_id p)
                                            (pokemon_forms db))) as Hin
              by (rewrite Hpf1; by left).
            apply elem_of_outer in Hin as [[_ [=]]|(b & [= <-] & Hb)].
            by apply list_elem_of_filter in Hb as [_ ?]. }
          specialize (Hpfn pf Hin).
          erewrite list_filter_iff; [exact Hpfn|].
          intros pfn. simpl. split; [by intros [[= ->] ?]|by intros [-> ?]].
        - match goal with |- (length ?l ≤ 1)%nat => assert (l = []) as -> end;
            [|simpl; lia].
          apply elem_of_nil_inv.
          by intros pfn [[? _] _]%list_elem_of_filter. }
      simpl. rewrite app_nil_r.
      rewrite (list_filter_iff _
                 (λ psn, psn_pokemon_species_id psn = species_id
                         ∧ psn_local_language_id psn = LANG_EN))
        by (intros psn; by rewrite Hsp).
      destruct (filter _ (pokemon_species_names db)) as [|psn [|? ?]];
        try done.
      simpl. unfold where_. by rewrite decide_True by done.
    - rewrite bind_all_nil; [done|]. intros pf.
      apply bind_all_nil. intros pfn. apply bind_all_nil. intros psn.
      unfold where_. by rewrite decide_False. }
  rewrite <-list_fmap_compose.
  change (fr_identifier ∘ snd) with (snd ∘ g1).
  change p_identifier with (snd ∘ g2).
  rewrite !list_fmap_compose. f_equal.
  change (sort_by Z.le fst rows) with (sort_by Z.le (fst ∘ g1) rows).
  change p_id with (fst ∘ g2).
  by rewrite <-!sort_by_fmap, Hrows.
Qed.

(** When the joins of the forms query do not multiply rows for the
    view's Species (each of its Forms has at most one [pokemon_forms]
    row, each such row at most one English name row, and the Species one
    English name), the slugs of the forms list are those of the Species'
    Forms in ascending Form id when there are two or more, and the list
    is empty when there is one. *)
Theorem forms_list_without_fan_out db identifier v :
  get_pokemon_data db identifier = Ok (Some v) →
  (∀ p, p ∈ pokemon db → p_species_id p = vm_dex v →
        (length (filter (λ pf, pf_pokemon_id pf = p_id p)
                        (pokemon_forms db)) ≤ 1)%nat) →
  (∀ pf, pf ∈ pokemon_forms db →
         (length (filter (λ pfn, pfn_pokemon_form_id pfn = pf_id pf
                                 ∧ pfn_local_language_id pfn = LANG_EN)
                         (pokemon_form_names db)) ≤ 1)%nat) →
  length (filter (λ psn, psn_pokemon_species_id psn = vm_dex v
                         ∧ psn_local_language_id psn = LANG_EN)
                 (pokemon_species_names db)) = 1%nat →
  fe_identifier <$> vm_forms v
  = let slugs :=
      p_identifier <$>
        sort_by Z.le p_id (filter (λ p, p_species_id p = vm_dex v)
                                  (pokemon db)) in
    if decide (length slugs ≤ 1)%nat then [] else slugs.
Proof.
  intros Hv Hpf Hpfn Hpsn.
  apply get_pokemon_data_Some in Hv as (base & tm & Hb & Hrest).
  destruct Hrest as (_ & _ & Hdex & Hrest).
  do 7 destruct Hrest as [_ Hrest]. destruct Hrest as [Hforms _].
  rewrite Hforms, Hdex in *. cbv zeta.
  rewrite <-(forms_query_slugs db (b_species_id base)) by done.
  unfold forms_of. rewrite !length_fmap.
  case_decide; [done|].
  rewrite <-list_fmap_compose. by apply list_fmap_ext.
Qed.

Lemma forms_list_without_fan_out_witness :
  ∃ v, get_pokemon_data Sample.db "deoxys-attack" = Ok (Some v)
       ∧ fe_identifier <$> vm_forms v = ["deoxys-normal"; "deoxys-attack"].
Proof.
  eexists. split; [vm_compute; reflexivity|].
  rewrite (forms_list_without_fan_out Sample.db "deoxys-attack" _
             ltac:(vm_compute; reflexivity)).
  - by vm_compute.
  - intros p Hp%list_elem_of_In Hsp. vm_compute in Hp.
    repeat (destruct Hp as [<-|Hp];
            [first [vm_compute in Hsp; discriminate|vm_compute; lia]|]).
    done.
  - intros pf Hpf%list_elem_of_In. vm_compute in Hpf.
    repeat (destruct Hpf as [<-|Hpf]; [vm_compute; lia|]). done.
  - by vm_compute.
Defined.

(** ** Encounters: size of the list *)

Lemma length_encounters_query db pokemon_id :
  (length (encounters_query db pokemon_id) ≤ 40)%nat.
Proof. unfold encounters_query. rewrite length_take. lia. Qed.

Lemma locations_of_inhabited rows ver :
  ver ∈ rows.*1 → ∃ loc, loc ∈ locations_of rows ver.
Proof.
  intros ([ver' loc] & -> & Hin)%list_elem_of_fmap. exists loc.
  unfold locations_of. apply elem_of_list_to_set, list_elem_of_fmap.
  exists (ver', loc). split; [done|]. by apply list_elem_of_filter.
Qed.

(** In every composed view the encounters list has at most 40 entries,
    one per version among the at most 40 raw rows read; every entry lists
    at least one location; and the list is empty exactly when the
    encounter query returned no row. *)
Theorem encounters_entries_bounded db identifier v :
  get_pokemon_data db identifier = Ok (Some v) →
  ∃ base,
    get_pokemon_basic db identifier = Some base
    ∧ (length (vm_encounters v)
       ≤ length (encounters_query db (b_id base)) ≤ 40)%nat
    ∧ Forall (λ e, (1 ≤ length (en_locations e))%nat) (vm_encounters v)
    ∧ (vm_encounters v = [] ↔ encounters_query db (b_id base) = []).
Proof.
  intros (base & tm & Hb & Hrest)%get_pokemon_data_Some.
  do 13 destruct Hrest as [_ Hrest]. rename Hrest into Henc.
  exists base. split; [done|]. rewrite Henc.
  pose proof (length_encounters_query db (b_id base)) as H40.
  generalize dependent (encounters_query db (b_id base)). intros rows H40.
  destruct (encounters_of_spec rows) as (Hin & Hnd & _).
  assert (Hlen : (length (encounters_of rows) ≤ length rows)%nat).
  { rewrite <-(length_fmap en_version), <-(length_fmap fst rows).
    apply submseteq_length, NoDup_submseteq; [done|].
    intros ver (e & -> & He)%list_elem_of_fmap. by apply Hin in He as [? _]. }
  split; [done|]. split.
  - apply Forall_forall. intros e [Hver ->]%Hin.
    destruct (locations_of_inhabited _ _ Hver) as [loc Hloc].
    apply elem_of_sorted_set in Hloc.
    destruct (sorted_set _) as [|l ls]; [by apply elem_of_nil in Hloc|].
    simpl. lia.
  - split.
    + intros Hnil. destruct (decide (rows = [])) as [|Hne]; [done|].
      exfalso. destruct rows as [|[ver loc] rows']; [done|].
      assert (Hmem : {| en_version := ver;
                        en_locations :=
                          take 5 (sorted_set
                                    (locations_of ((ver, loc) :: rows') ver)) |}
                     ∈ encounters_of ((ver, loc) :: rows')).
      { apply Hin. simpl. split; [by left|done]. }
      rewrite Hnil in Hmem. by apply elem_of_nil in Hmem.
    + by intros ->.
Qed.

(** ** Display name *)

(** The display name of a composed view is the English name of the
    view's Species, unless a [pokemon_forms] row of the viewed Form has
    an English name row with a [pokemon_name], in which case it can be
    that name. *)
Theorem display_name_sources db identifier v :
  get_pokemon_data db identifier = Ok (Some v) →
  (∃ psn, psn ∈ pokemon_species_names db
          ∧ psn_pokemon_species_id psn = vm_dex v
          ∧ psn_local_language_id psn = LANG_EN
          ∧ vm_display_name v = psn_name psn)
  ∨ (∃ p pf pfn,
       p ∈ pokemon db ∧ p_identifier p = vm_identifier v
       ∧ pf ∈ pokemon_forms db ∧ pf_pokemon_id pf = p_id p
       ∧ pfn ∈ pokemon_form_names db
       ∧ pfn_pokemon_form_id pfn = pf_id pf
       ∧ pfn_local_language_id pfn = LANG_EN
       ∧ pfn_pokemon_name pfn = Some (vm_display_name v)).
Proof.
  intros (base & Hb & -> & -> & -> & _)%get_pokemon_data_Some_fields.
  unfold get_pokemon_basic in Hb. rewrite fetchone_take_1 in Hb.
  apply head_Some_elem_of in Hb.
  apply list_elem_of_bind in Hb as (p & Hb & Hp).
  apply list_elem_of_bind in Hb as (pf & Hb & Hpf).
  apply list_elem_of_bind in Hb as (pfn & Hb & Hpfn).
  apply list_elem_of_bind in Hb
    as (psn & Hb & [[Hsp Hlang] Hpsn]%list_elem_of_filter).
  apply elem_of_where_ in Hb as [Hid ->]. simpl.
  destruct pfn as [pfn|]; simpl.
  - destruct (pfn_pokemon_name pfn) as [name|] eqn:Hname; simpl.
    + right.
      apply elem_of_outer in Hpfn as [[_ [=]]|(pfn' & [= <-] & Hpfn)].
      apply list_elem_of_filter in Hpfn as [[Hform Hlang'] Hpfn].
      destruct pf as [pf|]; [|done]. injection Hform as Hform.
      apply elem_of_outer in Hpf as [[_ [=]]|(pf' & [= <-] & Hpf)].
      apply list_elem_of_filter in Hpf as [Hpid Hpf].
      by exists p, pf, pfn.
    + left. by exists psn.
  - left. by exists psn.
Qed.

(** ** Suggestions *)

Lemma elem_of_suggest_query db like r :
  r ∈ suggest_query db like →
  ∃ p psn,
    p ∈ pokemon db ∧ p_is_default p = 1
    ∧ psn ∈ pokemon_species_names db
    ∧ psn_pokemon_species_id psn = p_species_id p
    ∧ psn_local_language_id psn = LANG_EN
    ∧ sg_identifier r = p_identifier p
    ∧ (LIKE (p_identifier p) like ∨ LIKE (psn_name psn) like).
Proof.
  unfold suggest_query. intros Hr.
  pose proof (elem_of_sublist _ _ _ Hr (sublist_take _ _)) as Hr'.
  apply elem_of_sort_by in Hr'.
  apply list_elem_of_bind in Hr' as (p & Hr' & Hp).
  apply list_elem_of_bind in Hr' as (pf & Hr' & _).
  apply list_elem_of_bind in Hr' as (pfn & Hr' & _).
  apply list_elem_of_bind in Hr'
    as (psn & Hr' & [[Hsp Hlang] Hpsn]%list_elem_of_filter).
  apply elem_of_where_ in Hr' as [[Hdef Hlike] ->]. by exists p, psn.
Qed.

(** The suggestions for a query: none when the query is blank, at most
    eight otherwise, each the slug of a default Form whose slug or English
    Species name matches the pattern made of the trimmed, lower-cased
    query followed by [%]. *)
Theorem pokemon_suggest_results db q :
  (strip q = "" → pokemon_suggest db q = [])
  ∧ (length (pokemon_suggest db q) ≤ 8)%nat
  ∧ ∀ id name,
      (id, name) ∈ pokemon_suggest db q →
      strip q ≠ ""
      ∧ ∃ p psn,
          p ∈ pokemon db ∧ p_is_default p = 1 ∧ p_identifier p = id
          ∧ psn ∈ pokemon_species_names db
          ∧ psn_pokemon_species_id psn = p_species_id p
          ∧ psn_local_language_id psn = LANG_EN
          ∧ (LIKE id (Py.lower (strip q) +:+ "%")
             ∨ LIKE (psn_name psn) (Py.lower (strip q) +:+ "%")).
Proof.
  unfold pokemon_suggest.
  destruct (String.eqb_spec (strip q) "") as [Hblank|Hq].
  - split; [done|]. split; [simpl; lia|]. by intros ?? ?%elem_of_nil.
  - split; [done|]. split.
    + rewrite length_fmap. unfold suggest_query. rewrite length_take. lia.
    + intros id name (r & [= -> ->] & Hr)%list_elem_of_fmap.
      split; [done|].
      apply elem_of_suggest_query in Hr
        as (p & psn & Hp & Hdef & Hpsn & Hsp & Hlang & -> & Hlike).
      by exists p, psn.
Qed.

(** ** LIKE as a prefix test *)











(** ** Flavor text of the latest version *)

Lemma flavor_text_query_spec db species_id :
  match flavor_text_query db species_id with
  | Some text =>
      ∃ ft, ft ∈ pokemon_species_flavor_text db
            ∧ psft_species_id ft = species_id
            ∧ psft_language_id ft = LANG_EN
            ∧ psft_flavor_text ft = text
            ∧ ∀ ft', ft' ∈ pokemon_species_flavor_text db →
                     psft_species_id ft' = species_id →
                     psft_language_id ft' = LANG_EN →
                     psft_version_id ft' ≤ psft_version_id ft
  | None =>
      ∀ ft, ft ∈ pokemon_species_flavor_text db →
            ¬ (psft_species_id ft = species_id
               ∧ psft_language_id ft = LANG_EN)
  end.
Proof.
  unfold flavor_text_query. rewrite fetchone_take_1.
  destruct (head _) as [ft|] eqn:Hhd; simpl.
  - apply head_sort_by_Some in Hhd
      as [[[Hsp Hlang] Hft]%list_elem_of_filter Hmax]; [|apply _..].
    exists ft. repeat split; try done.
    intros ft' Hft' Hsp' Hlang'. apply (Hmax ft').
    by apply list_elem_of_filter.
  - apply head_sort_by_None in Hhd. intros ft Hft Hmatch.
    eapply filter_nil_not_elem_of; [exact Hhd|exact Hmatch|exact Hft].
Qed.

(** The flavor text of a composed view is taken from the English flavor
    row of the view's Species with the greatest version id, with its line
    breaks blanked; it is the empty string when the Species has no
    English flavor row. *)
Theorem flavor_text_of_latest_version db identifier v :
  get_pokemon_data db identifier = Ok (Some v) →
  (∃ ft, ft ∈ pokemon_species_flavor_text db
         ∧ psft_species_id ft = vm_dex v
         ∧ psft_language_id ft = LANG_EN
         ∧ vm_flavor_text v = one_line (psft_flavor_text ft)
         ∧ ∀ ft', ft' ∈ pokemon_species_flavor_text db →
                  psft_species_id ft' = vm_dex v →
                  psft_language_id ft' = LANG_EN →
                  psft_version_id ft' ≤ psft_version_id ft)
  ∨ (vm_flavor_text v = ""
     ∧ ∀ ft, ft ∈ pokemon_species_flavor_text db →
             ¬ (psft_species_id ft = vm_dex v
                ∧ psft_language_id ft = LANG_EN)).
Proof.
  intros (base & tm & _ & _ & _ & Hdex & Hrest)%get_pokemon_data_Some.
  do 5 destruct Hrest as [_ Hrest]. destruct Hrest as [Hft _].
  rewrite Hft, Hdex. unfold flavor_text_of.
  pose proof (flavor_text_query_spec db (b_species_id base)) as Hq.
  destruct (flavor_text_query db (b_species_id base)) as [text|].
  - left. destruct Hq as (ft & ? & ? & ? & <- & ?). by exists ft.
  - by right.
Qed.

(** ** Abilities *)

Lemma ability_flavor_subquery_spec db ability_id :
  match ability_flavor_subquery db ability_id with
  | Some text =>
      ∃ aft, aft ∈ ability_flavor_text db
             ∧ aft_ability_id aft = ability_id
             ∧ aft_language_id aft = LANG_EN
             ∧ aft_flavor_text aft = Some text
             ∧ ∀ aft', aft' ∈ ability_flavor_text db →
                       aft_ability_id aft' = ability_id →
                       aft_language_id aft' = LANG_EN →
                       aft_version_group_id aft' ≤ aft_version_group_id aft
  | None => True
  end.
Proof.
  unfold ability_flavor_subquery. rewrite fetchone_take_1.
  destruct (head _) as [aft|] eqn:Hhd; simpl; [|done].
  destruct (aft_flavor_text aft) as [text|] eqn:Htext; [|done].
  apply head_sort_by_Some in Hhd
    as [[[Hid Hlang] Haft]%list_elem_of_filter Hmax]; [|apply _..].
  exists aft. repeat split; try done.
  intros aft' Haft' Hid' Hlang'. apply (Hmax aft').
  by apply list_elem_of_filter.
Qed.

Lemma elem_of_abilities_query db pokemon_id r :
  r ∈ abilities_query db pokemon_id →
  ∃ pa a an,
    pa ∈ pokemon_abilities db ∧ pa_pokemon_id pa = pokemon_id
    ∧ a ∈ abilities db ∧ ab_id a = pa_ability_id pa
    ∧ an ∈ ability_names db ∧ an_ability_id an = ab_id a
    ∧ an_local_language_id an = LANG_EN
    ∧ ar_identifier r = ab_identifier a ∧ ar_name r = an_name an
    ∧ ar_is_hidden r = pa_is_hidden pa
    ∧ ar_flavor_text r = ability_flavor_subquery db (ab_id a).
Proof.
  unfold abilities_query. intros ([slot r'] & -> & Hr)%list_elem_of_fmap.
  apply elem_of_sort_by in Hr.
  apply list_elem_of_bind in Hr as (pa & Hr & Hpa).
  apply list_elem_of_bind in Hr as (a & Hr & [Ha_id Ha]%list_elem_of_filter).
  apply list_elem_of_bind in Hr
    as (an & Hr & [[Han_id Hlang] Han]%list_elem_of_filter).
  apply elem_of_where_ in Hr as [Hid [= -> ->]]. by exists pa, a, an.
Qed.

(** Every ability of a composed view is an ability of the viewed Form
    with an English name; it is flagged hidden exactly when its
    [is_hidden] column is not 0; and its flavor text, when not empty,
    is that of the ability's English flavor row with the greatest version
    group id, line breaks blanked. *)
Theorem abilities_of_the_form db identifier v :
  get_pokemon_data db identifier = Ok (Some v) →
  ∃ base,
    get_pokemon_basic db identifier = Some base
    ∧ ∀ e, e ∈ vm_abilities v →
        ∃ pa a an,
          pa ∈ pokemon_abilities db ∧ pa_pokemon_id pa = b_id base
          ∧ a ∈ abilities db ∧ ab_id a = pa_ability_id pa
          ∧ an ∈ ability_names db ∧ an_ability_id an = ab_id a
          ∧ an_local_language_id an = LANG_EN
          ∧ ae_identifier e = ab_identifier a ∧ ae_name e = an_name an
          ∧ (ae_is_hidden e = true ↔ pa_is_hidden pa ≠ 0)
          ∧ (ae_flavor_text e = ""
             ∨ ∃ aft text,
                 aft ∈ ability_flavor_text db
                 ∧ aft_ability_id aft = ab_id a
                 ∧ aft_language_id aft = LANG_EN
                 ∧ aft_flavor_text aft = Some text
                 ∧ ae_flavor_text e = one_line text
                 ∧ ∀ aft', aft' ∈ ability_flavor_text db →
                           aft_ability_id aft' = ab_id a →
                           aft_language_id aft' = LANG_EN →
                           aft_version_group_id aft'
                           ≤ aft_version_group_id aft).
Proof.
  intros (base & tm & Hb & Hrest)%get_pokemon_data_Some.
  do 5 destruct Hrest as [_ Hrest]. destruct Hrest as [Hab _].
  exists base. split; [done|]. rewrite Hab.
  intros e (r & -> & Hr)%list_elem_of_fmap.
  apply elem_of_abilities_query in Hr
    as (pa & a & an & Hpa & Hid & Ha & Ha_id & Han & Han_id & Hlang
        & Hident & Hname & Hhidden & Hflavor).
  exists pa, a, an. unfold ability_entry_of. simpl.
  rewrite Hident, Hname, Hhidden, Hflavor.
  do 9 (split; [done|]). split.
  - unfold Py.bool_of_int.
    destruct (Z.eqb_spec (pa_is_hidden pa) 0) as [->|Hne]; simpl;
      split; done.
  - pose proof (ability_flavor_subquery_spec db (ab_id a)) as Hq.
    destruct (ability_flavor_subquery db (ab_id a)) as [text|]; simpl.
    + right. destruct Hq as (aft & ? & ? & ? & ? & ?). by exists aft, text.
    + by left.
Qed.

(** ** Growth rate name *)

Lemma growth_rate_query_Some db growth_rate_id g :
  growth_rate_query db growth_rate_id = Some g →
  ∃ gr, gr ∈ growth_rates db ∧ gr_id gr = growth_rate_id
        ∧ (g = gr_identifier gr
           ∨ ∃ grp, grp ∈ growth_rate_prose db
                    ∧ grp_growth_rate_id grp = growth_rate_id
                    ∧ grp_local_language_id grp = LANG_EN
                    ∧ grp_name grp = Some g).
Proof.
  unfold growth_rate_query. rewrite fetchone_take_1.
  intros Hg%head_Some_elem_of.
  apply list_elem_of_bind in Hg as (gr & Hg & Hgr).
  apply list_elem_of_bind in Hg as (grp & Hg & Hgrp).
  apply elem_of_where_ in Hg as [Hid ->]. exists gr. split; [done|].
  split; [done|].
  destruct grp as [grp|]; simpl; [|by left].
  destruct (grp_name grp) as [name|] eqn:Hname; simpl; [|by left].
  right. apply elem_of_outer in Hgrp as [[_ [=]]|(grp' & [= <-] & Hgrp)].
  apply list_elem_of_filter in Hgrp as [[Hgid Hlang] Hgrp].
  exists grp. by rewrite <-Hid.
Qed.

(** The growth rate of a composed view, when not null, names the growth
    rate of the view's Species (an id that is neither null nor 0): it is
    the English prose name of that growth rate, or else its
    identifier. *)
Theorem growth_rate_name_or_identifier db identifier v g :
  get_pokemon_data db identifier = Ok (Some v) →
  vm_growth_rate v = Some g →
  ∃ srow growth_rate_id gr,
    species_query db (vm_dex v) = Some srow
    ∧ ps_growth_rate_id srow = Some growth_rate_id
    ∧ growth_rate_id ≠ 0
    ∧ gr ∈ growth_rates db ∧ gr_id gr = growth_rate_id
    ∧ (g = gr_identifier gr
       ∨ ∃ grp, grp ∈ growth_rate_prose db
                ∧ grp_growth_rate_id grp = growth_rate_id
                ∧ grp_local_language_id grp = LANG_EN
                ∧ grp_name grp = Some g).
Proof.
  intros (base & _ & _ & _ & Hdex & _ & _ & _ & Hgrowth & _)
    %get_pokemon_data_Some_fields.
  rewrite Hgrowth, Hdex. unfold species_info_of.
  destruct (species_query db (b_species_id base)) as [srow|]; [|done].
  simpl. destruct (ps_growth_rate_id srow) as [id|] eqn:Hid; [|done].
  simpl. destruct (Z.eqb_spec id 0) as [->|Hne]; [done|]. simpl.
  intros (gr & Hgr & Hgr_id & Hname)%growth_rate_query_Some.
  by exists srow, id, gr.
Qed.

(** ** The random pick *)

Lemma random_species_query_spec db draw :
  match random_species_query db draw with
  | Some s => s ∈ pokemon_species db
  | None => pokemon_species db = []
  end.
Proof.
  unfold random_species_query.
  destruct (pokemon_species db) as [|s0 l] eqn:Hl; [done|].
  destruct (_ !! _) as [s|] eqn:Hs.
  - by eapply list_elem_of_lookup_2.
  - apply lookup_ge_None in Hs.
    pose proof (Nat.mod_upper_bound draw (length (s0 :: l))). simpl in *. lia.
Qed.

(** The random pick returns the slug of a default Form of the Species
    drawn, a Species of the table; it falls back to the fixed slug
    [pikachu] when the Species table is empty, and also when the Species
    drawn has no Form with default flag 1. *)
Theorem random_identifier_default_or_fallback db draw :
  (pokemon_species db = [] →
   get_random_species_identifier db draw = "pikachu")
  ∧ (∀ s, random_species_query db draw = Some s →
          s ∈ pokemon_species db
          ∧ ((∀ p, p ∈ pokemon db → p_species_id p = ps_id s →
                   p_is_default p ≠ 1) →
             get_random_species_identifier db draw = "pikachu")
          ∧ ((∃ p, p ∈ pokemon db ∧ p_species_id p = ps_id s
                   ∧ p_is_default p = 1) →
             ∃ p, p ∈ pokemon db ∧ p_species_id p = ps_id s
                  ∧ p_is_default p = 1
                  ∧ get_random_species_identifier db draw = p_identifier p)).
Proof.
  pose proof (random_species_query_spec db draw) as Hq.
  unfold get_random_species_identifier. split.
  - intros Hnil. destruct (random_species_query db draw) as [s|]; [|done].
    rewrite Hnil in Hq. by apply elem_of_nil in Hq.
  - intros s Hs. rewrite Hs in *. split; [done|].
    unfold default_form_query. rewrite fetchone_take_1.
    destruct (filter _ (pokemon db)) as [|p ps] eqn:Hf; simpl.
    + split; [done|]. intros (p & Hp & Hsp & Hdef). exfalso.
      eapply (filter_nil_not_elem_of _ _ p); [exact Hf| |exact Hp]. done.
    + assert (Hp : p ∈ filter (λ p, p_species_id p = ps_id s
                                    ∧ p_is_default p = 1) (pokemon db))
        by (rewrite Hf; by left).
      apply list_elem_of_filter in Hp as [[Hsp Hdef] Hp]. split.
      * intros Hno. by destruct (Hno p Hp Hsp).
      * intros _. by exists p.
Qed.

(** ** Posting a name *)

Lemma lower_empty_iff s : Py.lower s = "" ↔ s = "".
Proof. by destruct s. Qed.

Lemma is_space_to_lower c : is_space (Py.to_lower c) = is_space c.
Proof.
  unfold Py.to_lower, Py.is_upper.
  destruct (_ && _) eqn:Hup; [|done].
  apply andb_prop in Hup as [H1%Nat.leb_le H2%Nat.leb_le].
  unfold is_space. rewrite nat_ascii_embedding by lia.
  repeat match goal with
  | |- context [(?a <=? ?b)%nat] => destruct (Nat.leb_spec a b)
  end; simpl; try done; lia.
Qed.

Lemma lstrip_lower s : lstrip (Py.lower s) = Py.lower (lstrip s).
Proof.
  induction s as [|c s IH]; simpl; [done|].
  rewrite is_space_to_lower. by destruct (is_space c).
Qed.

Lemma rstrip_lower s : rstrip (Py.lower s) = Py.lower (rstrip s).
Proof.
  induction s as [|c s IH]; simpl; [done|].
  rewrite IH, is_space_to_lower.
  destruct (rstrip s); simpl; [|done]. by destruct (is_space c).
Qed.

Lemma strip_lower s : strip (Py.lower s) = Py.lower (strip s).
Proof. unfold strip. by rewrite lstrip_lower, rstrip_lower. Qed.

Lemma rstrip_idempotent s : rstrip (rstrip s) = rstrip s.
Proof.
  induction s as [|c s IH]; simpl; [done|].
  destruct (rstrip s) as [|d t] eqn:Hr.
  - destruct (is_space c) eqn:Hc; simpl; [done|]. by rewrite Hc.
  - change (rstrip (String c (String d t)) = String c (String d t)).
    simpl in *. by rewrite IH.
Qed.

Lemma lstrip_rstrip_lstrip s : lstrip (rstrip (lstrip s)) = rstrip (lstrip s).
Proof.
  induction s as [|c s IH]; simpl; [done|].
  destruct (is_space c) eqn:Hc; [exact IH|].
  simpl. rewrite Hc. destruct (rstrip s); simpl; by rewrite Hc.
Qed.

Lemma strip_idempotent s : strip (strip s) = strip s.
Proof.
  unfold strip. by rewrite lstrip_rstrip_lstrip, rstrip_idempotent.
Qed.

(** [index] on a GET renders the empty index page, and so does a POST
    whose name, of ASCII characters, is blank once trimmed.  Any other
    such name is handed to [url_for] trimmed and lower-cased: an
    identifier that is not empty and that trimming and lower-casing
    leave as it is. *)
Theorem index_redirects_normalised_name pokemon_name :
  ascii_only pokemon_name →
  index None = RenderIndex None ""
  ∧ (strip pokemon_name = "" →
     index (Some pokemon_name) = RenderIndex None "")
  ∧ (strip pokemon_name ≠ "" →
     ∃ name,
       index (Some pokemon_name) = RedirectToDetail name
       ∧ name = Py.lower (strip pokemon_name)
       ∧ name ≠ ""
       ∧ Py.lower name = name
       ∧ strip name = name).
Proof.
  intros _. unfold index. split; [done|]. split.
  - by intros ->.
  - intros Hne. exists (Py.lower (strip pokemon_name)). cbv zeta.
    destruct (String.eqb_spec (Py.lower (strip pokemon_name)) "")
      as [Hlow|Hlow]; [by apply (proj1 (lower_empty_iff _)) in Hlow|].
    repeat split; [done|apply lower_idempotent|].
    by rewrite strip_lower, strip_idempotent.
Qed.

(** ** Instances on the sample dataset *)

Lemma stat_entries_within_dex_bounds_witness :
  ∃ v, get_pokemon_data Sample.db "pikachu" = Ok (Some v)
       ∧ Forall (λ e, se_min e ≤ se_value e ≤ se_max e) (vm_stats v).
Proof.
  eexists. split; [vm_compute; reflexivity|].
  eapply Forall_impl.
  - apply (stat_entries_within_dex_bounds Sample.db "pikachu").
    vm_compute; reflexivity.
  - by intros e [He _].
Defined.

Lemma stat_entries_order_and_total_witness :
  ∃ v, get_pokemon_data Sample.db "pikachu" = Ok (Some v)
       ∧ vm_total v = 300
       ∧ vm_total v = foldr Z.add 0 (se_value <$> vm_stats v).
Proof.
  eexists. split; [vm_compute; reflexivity|]. split; [by vm_compute|].
  destruct (stat_entries_order_and_total Sample.db "pikachu" _
              ltac:(vm_compute; reflexivity)) as (_ & _ & Htotal).
  exact Htotal.
Defined.

Lemma pokemon_detail_ignores_case_witness :
  pokemon_detail Sample.db "PikaChu" = pokemon_detail Sample.db "pikachu".
Proof.
  exact (proj1 (pokemon_detail_ignores_case Sample.db "PikaChu" "pikachu"
                  eq_refl)).
Defined.

Lemma view_identifier_is_lowered_input_witness :
  ∃ v, get_pokemon_data Sample.db "PikaChu" = Ok (Some v)
       ∧ vm_identifier v = "pikachu".
Proof.
  eexists. split; [vm_compute; reflexivity|].
  destruct (view_identifier_is_lowered_input Sample.db "PikaChu" _
              ltac:(vm_compute; reflexivity)) as [Hident _].
  exact Hident.
Defined.

Lemma forms_list_shape_witness :
  ∃ v, get_pokemon_data Sample.db "deoxys-attack" = Ok (Some v)
       ∧ (vm_forms v = []
          ∨ ((2 ≤ length (vm_forms v))%nat
             ∧ vm_identifier v ∈ fe_identifier <$> vm_forms v)).
Proof.
  eexists. split; [vm_compute; reflexivity|].
  destruct (forms_list_shape Sample.db "deoxys-attack" _
              ltac:(vm_compute; reflexivity)) as [Hshape _].
  exact Hshape.
Defined.

Lemma type_matchups_sorted_witness :
  ∃ tm,
    compute_type_matchups Sample.db (types_query Sample.db 94) = Ok tm
    ∧ StronglySorted (flip float_le) (me_multiplier <$> weak tm)
    ∧ StronglySorted float_le (me_multiplier <$> resist tm).
Proof.
  eexists. split; [vm_compute; reflexivity|].
  apply (type_matchups_sorted Sample.db (types_query Sample.db 94)).
  vm_compute; reflexivity.
Defined.

Lemma type_matchups_key_error_witness :
  ∃ r, r ∈ type_efficacy Sample.db
       ∧ te_target_type_id r ∈ tr_id <$> types_query Sample.db 133
       ∧ compute_type_matchups Sample.db (types_query Sample.db 133)
         = Raise (KeyError (te_damage_type_id r)).
Proof.
  destruct (type_matchups_key_error Sample.db (types_query Sample.db 133))
    as [Hraise _].
  destruct (Hraise (KeyError 10002) ltac:(vm_compute; reflexivity))
    as (r & (Hr & Htarget & _) & Hkey).
  exists r. split; [done|]. split; [done|].
  rewrite <-Hkey. vm_compute; reflexivity.
Defined.

Lemma evolution_edges_of_the_chain_witness :
  ∃ v, get_pokemon_data Sample.db "raichu" = Ok (Some v)
       ∧ (sp_species_id ∘ ee_to) <$> vm_evolutions v = [25; 26]
       ∧ StronglySorted Z.le ((sp_species_id ∘ ee_to) <$> vm_evolutions v).
Proof.
  eexists. split; [vm_compute; reflexivity|]. split; [by vm_compute|].
  destruct (evolution_edges_of_the_chain Sample.db "raichu" _
              ltac:(vm_compute; reflexivity)) as [Hsorted _].
  exact Hsorted.
Defined.

Lemma encounters_entries_bounded_witness :
  ∃ v, get_pokemon_data Sample.db "pikachu" = Ok (Some v)
       ∧ Forall (λ e, (1 ≤ length (en_locations e))%nat) (vm_encounters v).
Proof.
  eexists. split; [vm_compute; reflexivity|].
  destruct (encounters_entries_bounded Sample.db "pikachu" _
              ltac:(vm_compute; reflexivity)) as (base & _ & _ & Hall & _).
  exact Hall.
Defined.

Lemma display_name_sources_witness :
  ∃ v, get_pokemon_data Sample.db "deoxys-attack" = Ok (Some v)
       ∧ vm_display_name v = "Deoxys Attack Forme"
       ∧ ((∃ psn, psn ∈ pokemon_species_names Sample.db
                  ∧ psn_pokemon_species_id psn = vm_dex v
                  ∧ psn_local_language_id psn = LANG_EN
                  ∧ vm_display_name v = psn_name psn)
          ∨ (∃ p pf pfn,
               p ∈ pokemon Sample.db ∧ p_identifier p = vm_identifier v
               ∧ pf ∈ pokemon_forms Sample.db ∧ pf_pokemon_id pf = p_id p
               ∧ pfn ∈ pokemon_form_names Sample.db
               ∧ pfn_pokemon_form_id pfn = pf_id pf
               ∧ pfn_local_language_id pfn = LANG_EN
               ∧ pfn_pokemon_name pfn = Some (vm_display_name v))).
Proof.
  eexists. split; [vm_compute; reflexivity|]. split; [by vm_compute|].
  apply (display_name_sources Sample.db "deoxys-attack").
  vm_compute; reflexivity.
Defined.

Lemma pokemon_suggest_results_witness :
  pokemon_suggest Sample.db "   " = []
  ∧ (length (pokemon_suggest Sample.db "%") ≤ 8)%nat.
Proof.
  destruct (pokemon_suggest_results Sample.db "   ") as (Hblank & _).
  destruct (pokemon_suggest_results Sample.db "%") as (_ & Hlen & _).
  split; [apply Hblank; by vm_compute|exact Hlen].
Defined.


Lemma random_identifier_default_or_fallback_witness :
  get_random_species_identifier Sample.db 3 = "gengar"
  ∧ get_random_species_identifier Sample.db 2 = "pikachu"
  ∧ ∃ s, random_species_query Sample.db 2 = Some s ∧ ps_identifier s = "haunter".
Proof.
  split; [by vm_compute|].
  destruct (random_identifier_default_or_fallback Sample.db 2) as [_ Hdrawn].
  destruct (Hdrawn (Build_pokemon_species_row 93 "haunter" (Some 92) (Some 40)
                      (Some 4) (Some 90) (Some 70) (Some 1)) eq_refl)
    as (_ & Hfallback & _).
  split.
  - apply Hfallback. intros p Hp%list_elem_of_In Hsp. vm_compute in Hp.
    repeat (destruct Hp as [<-|Hp]; [vm_compute in Hsp; discriminate|]).
    done.
  - eexists. split; [vm_compute; reflexivity|done].
Defined.

Lemma index_redirects_normalised_name_witness :
  index (Some "  PikaChu ") = RedirectToDetail "pikachu"
  ∧ index (Some "   ") = RenderIndex None "".
Proof.
  destruct (index_redirects_normalised_name "  PikaChu ")
    as (_ & _ & Hpost).
  { apply (bool_decide_eq_true_1 (ascii_only "  PikaChu ")).
    vm_compute. reflexivity. }
  destruct (index_redirects_normalised_name "   ") as (_ & Hblank & _).
  { apply (bool_decide_eq_true_1 (ascii_only "   ")). vm_compute. reflexivity. }
  split; [|apply Hblank; by vm_compute].
  destruct Hpost as (name & Hredirect & -> & _); [by vm_compute|].
  exact Hredirect.
Defined.

Lemma flavor_text_of_latest_version_witness :
  ∃ v, get_pokemon_data Sample.db "pikachu" = Ok (Some v)
       ∧ ∃ ft, ft ∈ pokemon_species_flavor_text Sample.db
               ∧ psft_version_id ft = 17
               ∧ vm_flavor_text v = one_line (psft_flavor_text ft).
Proof.
  eexists. split; [vm_compute; reflexivity|].
  destruct (flavor_text_of_latest_version Sample.db "pikachu" _
              ltac:(vm_compute; reflexivity))
    as [(ft & Hft & Hsp & Hlang & Htext & Hmax)|[Hempty _]].
  - exists ft. split; [done|]. split; [|done].
    apply list_elem_of_In in Hft. vm_compute in Hft, Hsp.
    assert (H17 : psft_version_id ft ≤ 17).
    { destruct Hft as [<-|[<-|[<-|[]]]]; vm_compute; discriminate. }
    pose proof (Hmax (Build_pokemon_species_flavor_text_row 25 17 9 "")) as Hle.
    assert (Hother : ∀ text,
              Build_pokemon_species_flavor_text_row 25 17 9 text
              ∈ pokemon_species_flavor_text Sample.db →
              17 ≤ psft_version_id ft)
      by (intros text Hin; by apply (Hmax _ Hin)).
    apply Z.le_antisymm; [done|]. eapply Hother.
    apply list_elem_of_In. vm_compute. right. left. reflexivity.
  - by vm_compute in Hempty.
Defined.

Lemma abilities_of_the_form_witness :
  ∃ v, get_pokemon_data Sample.db "pikachu" = Ok (Some v)
       ∧ (λ e, (ae_identifier e, ae_is_hidden e)) <$> vm_abilities v
         = [("static", false); ("lightning-rod", true)]
       ∧ ∀ e, e ∈ vm_abilities v →
              ∃ a, a ∈ abilities Sample.db ∧ ae_identifier e = ab_identifier a.
Proof.
  eexists. split; [vm_compute; reflexivity|]. split; [by vm_compute|].
  destruct (abilities_of_the_form Sample.db "pikachu" _
              ltac:(vm_compute; reflexivity)) as (base & _ & Hall).
  intros e He. destruct (Hall e He) as (pa & a & an & _ & _ & Ha & _ & _ & _
                                        & _ & Hident & _).
  by exists a.
Defined.

Lemma growth_rate_name_or_identifier_witness :
  ∃ v, get_pokemon_data Sample.db "gengar" = Ok (Some v)
       ∧ vm_growth_rate v = Some "medium-slow"
       ∧ ∃ gr, gr ∈ growth_rates Sample.db
               ∧ ("medium-slow" = gr_identifier gr
                  ∨ ∃ grp, grp ∈ growth_rate_prose Sample.db
                           ∧ grp_name grp = Some "medium-slow").
Proof.
  eexists. split; [vm_compute; reflexivity|]. split; [by vm_compute|].
  destruct (growth_rate_name_or_identifier Sample.db "gengar" _ "medium-slow"
              ltac:(vm_compute; reflexivity) ltac:(vm_compute; reflexivity))
    as (srow & id & gr & _ & _ & _ & Hgr & _ & Hname).
  exists gr. split; [done|].
  destruct Hname as [->|(grp & Hgrp & _ & _ & Hgname)]; [by left|].
  right. by exists grp.
Defined.

Lemma reference_factors_multiply_exactly_witness :
  Build_type_row 4 "poison" "Poison" ∈ attack_types_query Sample.db
  ∧ te_damage_factor <$>
      filter (λ r, te_damage_type_id r = 4)
             (efficacy_query Sample.db (tr_id <$> types_query Sample.db 94))
    = [50; 50]
  ∧ float_value
      (rounded_multiplier Sample.db (tr_id <$> types_query Sample.db 94)
         (Build_type_row 4 "poison" "Poison"))
    = Q2Qc (1 # 4)
  ∧ float_lt
      (rounded_multiplier Sample.db (tr_id <$> types_query Sample.db 94)
         (Build_type_row 4 "poison" "Poison"))
      F_0_99.
Proof.
  destruct (reference_factors_multiply_exactly Sample.db
              (types_query Sample.db 94) (Build_type_row 4 "poison" "Poison"))
    as (_ & Hvalue & _ & _ & Hresist).
  { vm_compute. lia. }
  { apply (bool_decide_eq_true_1 (Forall _ _)). vm_compute. reflexivity. }
  split; [apply list_elem_of_In; vm_compute; tauto|].
  split; [by vm_compute|]. split.
  - rewrite Hvalue. apply Qc_is_canon. vm_compute. reflexivity.
  - apply Hresist. vm_compute. reflexivity.
Defined.
